(** * Belize Travel Buddy: the scrape-paginate-normalize-cache pipeline

    A shallow embedding of the tour-operator scraper (the Express server and
    its Next.js route twin) together with the properties its specification
    states about it, and of the clients around it: the prototype's
    [TravelBuddyAPI], the filters of the Next.js page, the search function
    and its form.

    Conventions of the embedding:
    - JavaScript strings are [string]s; [includes], [slice] and the character
      class of [generateId] work on the characters of the string.
    - [toLowerCase] and [trim] depend on Unicode tables and are taken through
      the interface [JSString]; [ascii_strings] is its ASCII instance, used
      to run the code on concrete inputs.
    - JavaScript numbers are binary64 floats ([float]); [Date.now()] readings
      are integers (milliseconds).
    - [Math.random()] is a supply of floats indexed by the number of draws
      already made; the remote site is a function from the requests sent so
      far in a walk to the outcome of the latest one. *)

From Stdlib Require Import ZArith QArith List String Ascii Bool Lia Floats DecimalString.
From Equations Require Import Equations.
Import ListNotations.

#[local] Set Warnings "-inexact-float".
#[local] Close Scope Q_scope.
#[local] Open Scope string_scope.

(* ===================================================================== *)
(** ** JavaScript strings *)
(* ===================================================================== *)

(** [s.includes(sub)] *)
Fixpoint includes (s sub : string) : bool :=
  prefix sub s ||
  match s with
  | EmptyString => false
  | String _ s' => includes s' sub
  end.

(** [s.slice(0, n)] for a non-negative [n] *)
Fixpoint slice0 (n : nat) (s : string) : string :=
  match n, s with
  | S n', String c s' => String c (slice0 n' s')
  | _, _ => EmptyString
  end.

(** [s.replace(/[^a-z0-9]/g, '')]: keep the characters of the class. *)
Definition is_lower_alnum (c : ascii) : bool :=
  let n := nat_of_ascii c in
  (((97 <=? n) && (n <=? 122)) || ((48 <=? n) && (n <=? 57)))%nat.

Fixpoint strip_non_alnum (s : string) : string :=
  match s with
  | EmptyString => EmptyString
  | String c s' =>
      if is_lower_alnum c then String c (strip_non_alnum s')
      else strip_non_alnum s'
  end.

(** [xs.join(sep)] *)
Fixpoint join (sep : string) (xs : list string) : string :=
  match xs with
  | [] => ""
  | [x] => x
  | x :: rest => x ++ sep ++ join sep rest
  end.

(** [c.split(';')[0]]: the text before the first occurrence of [d]. *)
Fixpoint before_first (d : ascii) (s : string) : string :=
  match s with
  | EmptyString => EmptyString
  | String c s' => if Ascii.eqb c d then EmptyString else String c (before_first d s')
  end.

(** The decimal numeral of an integer, as [String(n)] prints it. *)
Definition decimal (n : Z) : string := NilZero.string_of_int (Z.to_int n).

(** The two string primitives that depend on Unicode tables. *)
Class JSString := {
  toLowerCase : string -> string;
  trim : string -> string;
  toLowerCase_empty : toLowerCase "" = "";
  trim_empty : trim "" = "";
}.

(** *** The ASCII instance *)

Definition ascii_lower (c : ascii) : ascii :=
  let n := nat_of_ascii c in
  if ((65 <=? n) && (n <=? 90))%nat then ascii_of_nat (n + 32) else c.

Fixpoint ascii_toLowerCase (s : string) : string :=
  match s with
  | EmptyString => EmptyString
  | String c s' => String (ascii_lower c) (ascii_toLowerCase s')
  end.

(** White space and line terminators below U+0080. *)
Definition is_space (c : ascii) : bool :=
  let n := nat_of_ascii c in
  (((9 <=? n) && (n <=? 13)) || (n =? 32))%nat.

Fixpoint trim_start (s : string) : string :=
  match s with
  | EmptyString => EmptyString
  | String c s' => if is_space c then trim_start s' else s
  end.

Fixpoint trim_end (s : string) : string :=
  match s with
  | EmptyString => EmptyString
  | String c s' =>
      match trim_end s' with
      | EmptyString => if is_space c then EmptyString else String c EmptyString
      | t => String c t
      end
  end.

Definition ascii_trim (s : string) : string := trim_end (trim_start s).

#[export] Instance ascii_strings : JSString := {|
  toLowerCase := ascii_toLowerCase;
  trim := ascii_trim;
  toLowerCase_empty := eq_refl;
  trim_empty := eq_refl;
|}.

(* ===================================================================== *)
(** ** Field Normalizer (the helpers of server.js / route.ts) *)
(* ===================================================================== *)

Section Normalizer.
Context `{JSString}.

(** [extractDistrict(address)] *)
Definition extractDistrict (address : string) : string :=
  if String.eqb address "" then "Belize" else
  let addr := toLowerCase address in
  if includes addr "cayo" || includes addr "san ignacio" || includes addr "santa elena"
     || includes addr "benque" || includes addr "bullet tree" then "Cayo"
  else if includes addr "stann" || includes addr "placencia" || includes addr "dangriga"
     || includes addr "hopkins" then "Stann Creek"
  else if includes addr "corozal" then "Corozal"
  else if includes addr "orange walk" then "Orange Walk"
  else if includes addr "toledo" || includes addr "punta gorda" then "Toledo"
  else if includes addr "san pedro" || includes addr "ambergris" || includes addr "caye caulker"
     || includes addr "belize city" || includes addr "ladyville" then "Belize"
  else "Belize".

(** The gazetteer of [extractLocation]. *)
Definition locations : list string :=
  ["San Pedro"; "Caye Caulker"; "San Ignacio"; "Santa Elena"; "Benque"; "Placencia";
   "Hopkins"; "Dangriga"; "Belize City"; "Ladyville"; "Corozal"; "Orange Walk";
   "Punta Gorda"].

Fixpoint first_location (address : string) (locs : list string) : string :=
  match locs with
  | [] => "Belize"
  | loc :: rest =>
      if includes (toLowerCase address) (toLowerCase loc) then loc
      else first_location address rest
  end.

(** [extractLocation(address)] *)
Definition extractLocation (address : string) : string :=
  if String.eqb address "" then "Belize" else first_location address locations.

(** [categorizeOperator(name)] *)
Definition categorizeOperator (name : string) : string :=
  if String.eqb name "" then "General" else
  let n := toLowerCase name in
  if includes n "dive" || includes n "scuba" || includes n "sea" || includes n "snork"
  then "Diving"
  else if includes n "maya" || includes n "ruin" || includes n "archaeolog"
  then "Mayan Tours"
  else if includes n "adventure" || includes n "cave" || includes n "zip" || includes n "jungle"
  then "Adventure"
  else if includes n "fish" then "Fishing"
  else if includes n "resort" || includes n "hotel" || includes n "lodge" then "Resort"
  else if includes n "rent" || includes n "golf cart" then "Rentals"
  else "General".

(** [estimatePriceRange(name)] *)
Definition estimatePriceRange (name : string) : string :=
  let n := toLowerCase name in
  if includes n "luxury" || includes n "resort" || includes n "heli" || includes n "private"
  then "$$$"
  else if includes n "dive" || includes n "adventure" then "$$"
  else "$".

(** The keywords [extractDistrict] recognises, in the order it tests them. *)
Definition district_keywords : list string :=
  ["cayo"; "san ignacio"; "santa elena"; "benque"; "bullet tree";
   "stann"; "placencia"; "dangriga"; "hopkins";
   "corozal"; "orange walk"; "toledo"; "punta gorda";
   "san pedro"; "ambergris"; "caye caulker"; "belize city"; "ladyville"].

End Normalizer.

(* ===================================================================== *)
(** ** Numbers: [Math.floor], [toFixed(1)], [Math.random()] *)
(* ===================================================================== *)

(** The integer part (towards minus infinity) of the finite float
    [(-1)^s * m * 2^e]. *)
Definition floor_finite (s : bool) (m : positive) (e : Z) : Z :=
  let v := if s then Z.neg m else Z.pos m in
  if (0 <=? e)%Z then (v * 2 ^ e)%Z else (v / 2 ^ (- e))%Z.

(** [String(Math.floor(x))], the text that [prefix + Math.floor(x)] appends.
    (Finite values from 1e21 on are printed by JavaScript in exponent notation;
    the numeral given here for them is the plain decimal one.) *)
Definition floor_toString (x : float) : string :=
  match Prim2SF x with
  | S754_nan => "NaN"
  | S754_infinity false => "Infinity"
  | S754_infinity true => "-Infinity"
  | S754_zero _ => "0"
  | S754_finite s m e => decimal (floor_finite s m e)
  end.

(** The integer [n] for which [n / 10] is closest to [m * 2^e], the larger one
    on a tie (step 10.a of Number.prototype.toFixed with one fraction digit). *)
Definition nearest_tenths (m : positive) (e : Z) : Z :=
  if (0 <=? e)%Z then (10 * Z.pos m * 2 ^ e)%Z
  else ((20 * Z.pos m + 2 ^ (- e)) / 2 ^ (1 - e))%Z.

(** [x.toFixed(1)] (plain decimal for every finite value, as for
    [floor_toString]). *)
Definition toFixed1 (x : float) : string :=
  match Prim2SF x with
  | S754_nan => "NaN"
  | S754_infinity false => "Infinity"
  | S754_infinity true => "-Infinity"
  | S754_zero _ => "0.0"
  | S754_finite s m e =>
      let n := nearest_tenths m e in
      (if s then "-" else "") ++ decimal (n / 10) ++ "." ++ decimal (n mod 10)
  end.

(** What [Math.random()] promises of each value it returns. *)
Definition unit_interval (r : float) : bool := ((0 <=? r) && (r <? 1))%float.

(** [generateRating()], on the value [r] drawn by its [Math.random()]. *)
Definition generateRating (r : float) : string := toFixed1 (4.2 + r * 0.8)%float.

(** The deterministic part of [generateId(name)]. *)
Definition idPrefix `{JSString} (name : string) : string :=
  slice0 10 (strip_non_alnum (toLowerCase name)).

(** [generateId(name)], on the value [r] drawn by its [Math.random()]. *)
Definition generateId `{JSString} (name : string) (r : float) : string :=
  idPrefix name ++ floor_toString (r * 1000)%float.

(** *** Reading a number back: [parseFloat] *)

Definition digit_of (c : ascii) : option Z :=
  let n := nat_of_ascii c in
  if ((48 <=? n) && (n <=? 57))%nat then Some (Z.of_nat (n - 48)) else None.

(** The longest run of digits at the head of [s]: its value after [acc], the
    number of digits read after [count], and the rest of the text. *)
Fixpoint read_digits (s : string) (acc : Z) (count : nat) : Z * nat * string :=
  match s with
  | String c s' =>
      match digit_of c with
      | Some d => read_digits s' (10 * acc + d)%Z (S count)
      | None => (acc, count, s)
      end
  | EmptyString => (acc, count, s)
  end.

(** [parseFloat(s)] as the exact rational the numeral denotes, for a numeral
    made of an optional sign, digits and an optional fraction. [None] stands
    for every other result: NaN, and what is not read here (infinities and
    numerals with an exponent). *)
Definition parseFloat (s : string) : option Q :=
  let s := trim_start s in
  let '(negative, body) :=
    match s with
    | String "-" t => (true, t)
    | String "+" t => (false, t)
    | _ => (false, s)
    end in
  let '(int_part, int_digits, rest) := read_digits body 0 0 in
  let '(frac_part, frac_digits, rest') :=
    match rest with
    | String "." t => read_digits t 0 0
    | _ => (0%Z, 0%nat, rest)
    end in
  if (int_digits + frac_digits =? 0)%nat then None
  else if prefix "e" rest' || prefix "E" rest' then None
  else
    let q := Qmake (int_part * 10 ^ Z.of_nat frac_digits + frac_part)
                   (Z.to_pos (10 ^ Z.of_nat frac_digits)) in
    Some (if negative then Qopp q else q).

(* ===================================================================== *)
(** ** Page Extractor *)
(* ===================================================================== *)

Record Address := { addr_full : string; addr_district : string }.

(** [OperatorData] of route.ts (the object literal of server.js). *)
Record OperatorData := {
  op_id : string;
  op_name : string;
  op_phone : string;
  op_address : Address;
  op_email : string;
  op_website : string;
  op_district : string;
  op_location : string;
  op_category : string;
  op_priceRange : string;
  op_rating : string;
}.

(** A table row as the extractor sees it: the texts of the [td] cells found
    under one [tr], in document order. *)
Definition Row := list string.

(** [$(tds[i]).text().trim()]; a missing cell has the empty text. *)
Definition cell `{JSString} (tds : Row) (i : nat) : string := trim (nth i tds "").

Section Extractor.
Context `{JSString}.
Variable random : nat -> float.

(** One run of the [each] callback of [extractOperatorsFromTable]; [k] counts
    the [Math.random()] draws made so far. *)
Definition extractRow (k : nat) (tds : Row) : option OperatorData * nat :=
  if (List.length tds <? 4)%nat then (None, k) else
  let name := cell tds 0 in
  if String.eqb name "" || String.eqb name "Name" || includes name "Company Name"
  then (None, k) else
  let phone := cell tds 1 in
  let address := cell tds 2 in
  let email := cell tds 3 in
  let website := cell tds 4 in
  (Some {| op_id := generateId name (random k);
           op_name := name;
           op_phone := phone;
           op_address := {| addr_full := address; addr_district := extractDistrict address |};
           op_email := email;
           op_website := website;
           op_district := extractDistrict address;
           op_location := extractLocation address;
           op_category := categorizeOperator name;
           op_priceRange := estimatePriceRange name;
           op_rating := generateRating (random (S k)) |},
   S (S k)).

(** [extractOperatorsFromTable($)] over the rows of the page. *)
Fixpoint extractOperatorsFromTable (k : nat) (rows : list Row) : list OperatorData * nat :=
  match rows with
  | [] => ([], k)
  | tds :: rest =>
      let '(o, k1) := extractRow k tds in
      let '(os, k2) := extractOperatorsFromTable k1 rest in
      (match o with Some op => op :: os | None => os end, k2)
  end.

End Extractor.

(* ===================================================================== *)
(** ** Pagination Walker *)
(* ===================================================================== *)

(** What the walker reads of one parsed page ([cheerio.load(response.data)]). *)
Record Page := {
  rows : list Row;                                 (* $('tr'), each with its td texts *)
  anchors : list string;                           (* href of every a[href], in document order *)
  viewState : option string;                       (* $('#__VIEWSTATE').val() *)
  eventValidation : option string;                 (* $('#__EVENTVALIDATION').val() *)
  viewStateGenerator : option string;              (* $('#__VIEWSTATEGENERATOR').val() *)
  inputs : list (option string * option string);   (* attr('name') and val() of every input *)
}.

Record Response := {
  data : Page;
  set_cookie : option (list string);               (* response.headers['set-cookie'] *)
}.

(** How an awaited promise settles. axios rejects on a connection error and on
    a status outside 2xx; [message] is the [error.message]. *)
Inductive Settled (A : Type) :=
| Fulfilled (a : A)
| Rejected (message : string).
Arguments Fulfilled {A} a.
Arguments Rejected {A} message.

(** The [formData] object: its own properties, listed in the order they
    were added; a value may be [undefined]. (Enumerating the object, as
    [qs.stringify] does, puts integer-like names first; the properties below
    are about which names the object holds and with which values, not about
    this order.) *)
Definition FormData := list (string * option string).

Inductive Request :=
| Get
| Post (body : FormData) (cookie : option string).

(** The remote site: the outcome of the latest request, given every request of
    the walk so far (the latest one last). *)
Definition Remote := list Request -> Settled Response.

(** The two deployments differ in the Cookie header sent before any cookie was
    received: server.js sends [cookies] as it is, route.ts sends [cookies || '']. *)
Inductive Deployment := ServerJs | RouteTs.

Definition cookie_header (d : Deployment) (cookies : option string) : option string :=
  match d, cookies with
  | ServerJs, _ => cookies
  | RouteTs, Some c => Some c
  | RouteTs, None => Some ""
  end.

(** [setCookie.map(c => c.split(';')[0]).join('; ')] *)
Definition cookie_string (set_cookie : list string) : string :=
  join "; " (map (before_first ";") set_cookie).

Definition update_cookies (cookies : option string) (r : Response) : option string :=
  match set_cookie r with
  | Some cs => Some (cookie_string cs)
  | None => cookies
  end.

(** *** The regular expression [/__doPostBack\('([^']+)','([^']+)'\)/] *)

Definition quote : ascii := "'"%char.

(** The longest run of characters other than the quote, and what follows it. *)
Fixpoint span_not_quote (s : string) : string * string :=
  match s with
  | EmptyString => ("", "")
  | String c s' =>
      if Ascii.eqb c quote then ("", s)
      else let '(a, b) := span_not_quote s' in (String c a, b)
  end.

Fixpoint strip_prefix (p s : string) : option string :=
  match p, s with
  | EmptyString, _ => Some s
  | String a p', String b s' => if Ascii.eqb a b then strip_prefix p' s' else None
  | String _ _, EmptyString => None
  end.

(** A match starting at the first character of [s]. *)
Definition match_here (s : string) : option (string * string) :=
  match strip_prefix "__doPostBack('" s with
  | None => None
  | Some s1 =>
      let '(target, s2) := span_not_quote s1 in
      if String.eqb target "" then None else
      match strip_prefix "','" s2 with
      | None => None
      | Some s3 =>
          let '(argument, s4) := span_not_quote s3 in
          if String.eqb argument "" then None else
          if prefix "')" s4 then Some (target, argument) else None
      end
  end.

(** [href.match(...)]: the leftmost match, as its two groups. *)
Fixpoint doPostBack_match (href : string) : option (string * string) :=
  match match_here href with
  | Some groups => Some groups
  | None =>
      match href with
      | EmptyString => None
      | String _ rest => doPostBack_match rest
      end
  end.

(** [$(`a[href*="Page$${nextPageNum}"]`).first()]: the href of the first anchor
    whose href contains the text. *)
Definition nextLink (p : Page) (nextPageNum : nat) : option string :=
  find (fun href => includes href ("Page$" ++ decimal (Z.of_nat nextPageNum))) (anchors p).

(** *** The form of a postback *)

Fixpoint own_property (fd : FormData) (key : string) : option (option string) :=
  match fd with
  | [] => None
  | (k, v) :: rest => if String.eqb k key then Some v else own_property rest key
  end.

(** The names every object inherits from [Object.prototype]; [formData[name]]
    is a truthy inherited value for them. *)
Definition object_prototype_keys : list string :=
  ["constructor"; "__defineGetter__"; "__defineSetter__"; "hasOwnProperty";
   "__lookupGetter__"; "__lookupSetter__"; "isPrototypeOf"; "propertyIsEnumerable";
   "toString"; "valueOf"; "__proto__"; "toLocaleString"].

(** [!!formData[name]] *)
Definition truthy_at (fd : FormData) (key : string) : bool :=
  match own_property fd key with
  | Some (Some v) => negb (String.eqb v "")
  | Some None => false
  | None => existsb (String.eqb key) object_prototype_keys
  end.

(** [formData[name] = val] *)
Fixpoint set_property (fd : FormData) (key : string) (v : option string) : FormData :=
  match fd with
  | [] => [(key, v)]
  | (k, x) :: rest =>
      if String.eqb k key then (k, v) :: rest else (k, x) :: set_property rest key v
  end.

(** The callback of [$('input').each]. *)
Definition add_input (fd : FormData) (input : option string * option string) : FormData :=
  match input with
  | (Some name, val) =>
      if negb (String.eqb name "") && negb (truthy_at fd name)
         && negb (String.eqb name "__VIEWSTATE") && negb (String.eqb name "__EVENTVALIDATION")
      then set_property fd name val
      else fd
  | (None, _) => fd
  end.

Definition formData_of (p : Page) (eventTarget eventArgument : string) : FormData :=
  fold_left add_input (inputs p)
    [("__EVENTTARGET", Some eventTarget);
     ("__EVENTARGUMENT", Some eventArgument);
     ("__VIEWSTATE", viewState p);
     ("__VIEWSTATEGENERATOR", viewStateGenerator p);
     ("__EVENTVALIDATION", eventValidation p)].

(** *** The walk *)

(** The local variables of [scrapeAllPages] at the head of its [while] loop,
    with the number of random draws made and the requests sent so far. *)
Record Walk := {
  operators : list OperatorData;
  cookies : option string;
  pageCount : nat;
  response : Response;
  draws : nat;
  sent : list Request;
}.

(** What a walk leaves behind: how it settled, the random draws made, the
    requests sent. *)
Record Walked := {
  settled : Settled (list OperatorData);
  draws_after : nat;
  sent_after : list Request;
}.

(** The pages the safety bound still allows: the loop's variant. *)
Definition pages_left (w : Walk) : nat := 16 - pageCount w.

Section Walker.
Context `{JSString}.
Variable deployment : Deployment.
Variable random : nat -> float.
Variable remote : Remote.

(** The [while (hasNextPage)] loop, entered with [hasNextPage = true]. It is
    left when [hasNextPage] is cleared (no link, no match, or more than 15
    pages counted) and when a request is rejected. *)
Equations? while_hasNextPage (w : Walk) : Walked by wf (pages_left w) lt :=
  while_hasNextPage w :=
    let page := data (response w) in
    let pageOperators := extractOperatorsFromTable random (draws w) (rows page) in
    let operators' := (operators w ++ fst pageOperators)%list in
    let nextPageNum := pageCount w + 1 in
    match nextLink page nextPageNum with
    | Some href =>
        match doPostBack_match href with
        | Some (eventTarget, eventArgument) =>
            let formData := formData_of page eventTarget eventArgument in
            let request := Post formData (cookie_header deployment (cookies w)) in
            let sent' := (sent w ++ [request])%list in
            match remote sent' with
            | Rejected message =>
                {| settled := Rejected message; draws_after := snd pageOperators;
                   sent_after := sent' |}
            | Fulfilled response' =>
                match le_lt_dec (pageCount w + 1) 15 with
                | left _ =>
                    while_hasNextPage
                      {| operators := operators';
                         cookies := update_cookies (cookies w) response';
                         pageCount := pageCount w + 1;
                         response := response';
                         draws := snd pageOperators;
                         sent := sent' |}
                | right _ =>
                    {| settled := Fulfilled operators'; draws_after := snd pageOperators;
                       sent_after := sent' |}
                end
            end
        | None =>
            {| settled := Fulfilled operators'; draws_after := snd pageOperators;
               sent_after := sent w |}
        end
    | None =>
        {| settled := Fulfilled operators'; draws_after := snd pageOperators;
           sent_after := sent w |}
    end.
Proof. unfold pages_left. cbn [pageCount]. lia. Qed.

(** [scrapeAllPages()], entered after [k] random draws. *)
Definition scrapeAllPages (k : nat) : Walked :=
  match remote [Get] with
  | Rejected message => {| settled := Rejected message; draws_after := k; sent_after := [Get] |}
  | Fulfilled response0 =>
      while_hasNextPage
        {| operators := [];
           cookies := update_cookies None response0;
           pageCount := 1;
           response := response0;
           draws := k;
           sent := [Get] |}
  end.

End Walker.

(* ===================================================================== *)
(** ** Cache Layer and Service Endpoint *)
(* ===================================================================== *)

Definition CACHE_DURATION : Z := 1000 * 60 * 60.

(** The two module-level variables. *)
Record Cache := {
  cachedOperators : option (list OperatorData);
  lastCacheTime : Z;
}.

Definition cache_at_start : Cache := {| cachedOperators := None; lastCacheTime := 0 |}.

(** The JSON body of a response: status 200 for [Success], 500 for [Failure]. *)
Inductive Reply :=
| Success (count : nat) (data : list OperatorData) (cached : bool)
| Failure (message error : string).

(** The handler up to its [await]: [Some] reply when the cache is valid at
    the reading [now] of [Date.now()], [None] when a walk is started. *)
Definition GET_enter (c : Cache) (now : Z) : option Reply :=
  match cachedOperators c with
  | Some ops =>
      if (now - lastCacheTime c <? CACHE_DURATION)%Z
      then Some (Success (List.length ops) ops true)
      else None
  | None => None
  end.

(** The handler after its [await], with the way the walk settled and the
    reading [now] of the second [Date.now()]. *)
Definition GET_resume (c : Cache) (walk : Settled (list OperatorData)) (now : Z)
  : Reply * Cache :=
  match walk with
  | Fulfilled allOperators =>
      (Success (List.length allOperators) allOperators false,
       {| cachedOperators := Some allOperators; lastCacheTime := now |})
  | Rejected message =>
      (Failure "Failed to fetch live data" message, c)
  end.

(** One request served from start to end. *)
Record Served := {
  reply : Reply;
  cache_after : Cache;
  draws_made : nat;
  requests : list Request;
}.

Section Endpoint.
Context `{JSString}.
Variable deployment : Deployment.
Variable random : nat -> float.

(** [app.get('/api/operators')] / [GET()], run without interleaving: [remote]
    is the site during this call, [k] the random draws made before it,
    [now_check] and [now_store] the two readings of the clock. *)
Definition GET (remote : Remote) (c : Cache) (k : nat) (now_check now_store : Z) : Served :=
  match GET_enter c now_check with
  | Some r => {| reply := r; cache_after := c; draws_made := k; requests := [] |}
  | None =>
      let w := scrapeAllPages deployment random remote k in
      let '(r, c') := GET_resume c (settled w) now_store in
      {| reply := r; cache_after := c'; draws_made := draws_after w;
         requests := sent_after w |}
  end.

End Endpoint.

(** *** Interleaved requests

    The handler is one coroutine per request. Between two suspension points
    it runs alone: on arrival it reads the cache and, on a miss, starts its
    walk; when its walk settles it resumes, stores and replies. *)

Record Server := {
  cache : Cache;
  walks_started : nat;
  walks_in_flight : nat;
  replies : list Reply;
}.

Inductive Event :=
| Arrive (now : Z)
| Settle (walk : Settled (list OperatorData)) (now : Z).

Definition server_step (s : Server) (e : Event) : Server :=
  match e with
  | Arrive now =>
      match GET_enter (cache s) now with
      | Some r =>
          {| cache := cache s; walks_started := walks_started s;
             walks_in_flight := walks_in_flight s; replies := (replies s ++ [r])%list |}
      | None =>
          {| cache := cache s; walks_started := S (walks_started s);
             walks_in_flight := S (walks_in_flight s); replies := replies s |}
      end
  | Settle walk now =>
      match walks_in_flight s with
      | O => s
      | S n =>
          let '(r, c') := GET_resume (cache s) walk now in
          {| cache := c'; walks_started := walks_started s;
             walks_in_flight := n; replies := (replies s ++ [r])%list |}
      end
  end.

Definition server_run (s : Server) (es : list Event) : Server := fold_left server_step es s.

Definition server_at_start : Server :=
  {| cache := cache_at_start; walks_started := 0; walks_in_flight := 0; replies := [] |}.

(* ===================================================================== *)
(** ** The prototype's client-side helpers (prototype/api.js) *)
(* ===================================================================== *)

(** [TravelBuddyAPI] keeps helpers of its own with the names of the
    scraper's. Its data comes from the scraper's endpoint ([fetchLiveData]);
    the helpers below are reached only from its [parseOperatorData]. *)
Module Prototype.
Section Helpers.
Context `{JSString}.

Definition districts : list string :=
  ["Cayo"; "Belize"; "Orange Walk"; "Corozal"; "Stann Creek"; "Toledo"].

Fixpoint first_district (addressLower : string) (ds : list string) : option string :=
  match ds with
  | [] => None
  | district :: rest =>
      if includes addressLower (toLowerCase district) then Some district
      else first_district addressLower rest
  end.

(** [extractDistrict(address)] of api.js *)
Definition extractDistrict (address : string) : string :=
  let addressLower := toLowerCase address in
  match first_district addressLower districts with
  | Some district => district
  | None =>
      if includes addressLower "san ignacio" || includes addressLower "santa elena"
         || includes addressLower "benque" || includes addressLower "bullet tree"
      then "Cayo"
      else if includes addressLower "san pedro" || includes addressLower "ambergris"
      then "Belize"
      else if includes addressLower "placencia" || includes addressLower "dangriga"
              || includes addressLower "hopkins"
      then "Stann Creek"
      else "Unknown"
  end.

(** [categorizeOperator(name)] of api.js *)
Definition categorizeOperator (name : string) : string :=
  let nameLower := toLowerCase name in
  if includes nameLower "div" || includes nameLower "snorkel"
     || includes nameLower "reef" || includes nameLower "underwater" then "diving"
  else if includes nameLower "mayan" || includes nameLower "maya"
     || includes nameLower "ruin" || includes nameLower "cultural" then "mayan"
  else if includes nameLower "resort" || includes nameLower "hotel"
     || includes nameLower "lodge" || includes nameLower "spa" then "resort"
  else if includes nameLower "adventure" || includes nameLower "cave"
     || includes nameLower "zip" || includes nameLower "jungle"
     || includes nameLower "expedition" then "adventure"
  else if includes nameLower "fish" || includes nameLower "angl" then "fishing"
  else if includes nameLower "bird" || includes nameLower "wildlife"
     || includes nameLower "nature" then "nature"
  else "general".

End Helpers.

(** [generateRating()] of api.js, on the value [r] drawn by its [Math.random()]. *)
Definition generateRating (r : float) : string := toFixed1 (4.0 + r * 1.0)%float.

(** *** The rest of [TravelBuddyAPI] *)


(** A character matched by [\d]. *)
Definition is_digit (c : ascii) : bool :=
  let n := nat_of_ascii c in ((48 <=? n) && (n <=? 57))%nat.

(** [s.replace(/\D/g, '')] *)
Fixpoint digits_only (s : string) : string :=
  match s with
  | EmptyString => EmptyString
  | String c s' => if is_digit c then String c (digits_only s') else digits_only s'
  end.

(** [s.slice(n)] for a non-negative [n] *)
Fixpoint slice_from (n : nat) (s : string) : string :=
  match n, s with
  | S n', String _ s' => slice_from n' s'
  | _, _ => s
  end.

(** [formatPhone(phone)] *)
Definition formatPhone (phone : string) : string :=
  let cleaned := digits_only phone in
  if (String.length cleaned =? 7)%nat
  then slice0 3 cleaned ++ "-" ++ slice_from 3 cleaned
  else phone.

Definition dash : ascii := "-"%char.

(** [s.replace(/[^a-z0-9]/g, '-')] *)
Fixpoint dash_non_alnum (s : string) : string :=
  match s with
  | EmptyString => EmptyString
  | String c s' => String (if is_lower_alnum c then c else dash) (dash_non_alnum s')
  end.

(** [s.replace(/-+/g, '-')]: of a run of dashes only the last is kept. *)
Fixpoint collapse_dashes (s : string) : string :=
  match s with
  | EmptyString => EmptyString
  | String c s' =>
      match s' with
      | String c' _ =>
          if Ascii.eqb c dash && Ascii.eqb c' dash then collapse_dashes s'
          else String c (collapse_dashes s')
      | EmptyString => String c EmptyString
      end
  end.

(** [generateId(name)] of api.js *)
Definition generateId `{JSString} (name : string) : string :=
  collapse_dashes (dash_non_alnum (toLowerCase name)).

(** *** The records the client holds

    The records of a server reply after [response.json()], and the record of
    [loadFallbackData], which has no [email] and no [website] and a number
    for its rating. *)
Inductive Rating :=
| RatingText (s : string)
| RatingNumber (x : float).

Record ClientAddress := {
  ca_full : string;
  ca_street : option string;
  ca_city : option string;
  ca_district : string;
}.

Record ClientOperator := {
  c_id : string;
  c_name : string;
  c_phone : string;
  c_address : ClientAddress;
  c_email : option string;
  c_website : option string;
  c_district : string;
  c_location : string;
  c_category : string;
  c_priceRange : string;
  c_rating : Rating;
}.

(** A record of the server's reply as the client reads it. *)
Definition of_server (o : OperatorData) : ClientOperator :=
  {| c_id := op_id o;
     c_name := op_name o;
     c_phone := op_phone o;
     c_address := {| ca_full := addr_full (op_address o); ca_street := None; ca_city := None;
                     ca_district := addr_district (op_address o) |};
     c_email := Some (op_email o);
     c_website := Some (op_website o);
     c_district := op_district o;
     c_location := op_location o;
     c_category := op_category o;
     c_priceRange := op_priceRange o;
     c_rating := RatingText (op_rating o) |}.

(** [loadFallbackData()] *)
Definition loadFallbackData : list ClientOperator :=
  [ {| c_id := "fallback-1";
       c_name := "System Offline - Start Server";
       c_phone := "000-0000";
       c_address := {| ca_full := "Run 'node server.js' to see live data";
                       ca_street := Some ""; ca_city := Some ""; ca_district := "System" |};
       c_email := None;
       c_website := None;
       c_district := "System";
       c_location := "Console";
       c_category := "System";
       c_priceRange := "$";
       c_rating := RatingNumber 0 |} ].

(** *** The client-side cache *)

(** [this.cache] *)
Record ClientCache := {
  cache_data : option (list ClientOperator);
  cache_timestamp : option Z;
  expiryMinutes : Z;
}.

(** The cache the constructor makes. *)
Definition cache_new : ClientCache :=
  {| cache_data := None; cache_timestamp := None; expiryMinutes := 30 |}.

(** [isCacheValid()], with the reading [now] of [Date.now()]. A timestamp of
    0 is falsy. *)
Definition isCacheValid (c : ClientCache) (now : Z) : bool :=
  match cache_data c, cache_timestamp c with
  | Some _, Some t =>
      if (t =? 0)%Z then false else (now - t <? expiryMinutes c * 60 * 1000)%Z
  | _, _ => false
  end.

(** What one call of [fetchLiveData] leaves behind. *)
Record Loaded := {
  shown : list ClientOperator;
  client_cache : ClientCache;
  fetched : bool;
}.

(** [fetchLiveData()]: [now] is the clock read by [isCacheValid], [live] the
    way [fetch] and [response.json()] settle (the body being a reply of the
    server), [now_store] the clock read when the cache is filled. *)
Definition fetchLiveData (c : ClientCache) (now : Z) (live : Settled Reply) (now_store : Z)
  : Loaded :=
  match (if isCacheValid c now then cache_data c else None) with
  | Some cached => {| shown := cached; client_cache := c; fetched := false |}
  | None =>
      match live with
      | Fulfilled (Success _ ((_ :: _) as data) _) =>
          let data := map of_server data in
          {| shown := data;
             client_cache := {| cache_data := Some data; cache_timestamp := Some now_store;
                                expiryMinutes := expiryMinutes c |};
             fetched := true |}
      | _ => {| shown := loadFallbackData; client_cache := c; fetched := true |}
      end
  end.

(** One call of [getAllOperators()] as the page makes it. *)
Record Call := {
  call_now : Z;
  call_live : Settled Reply;
  call_store : Z;
}.

Definition call (c : ClientCache) (x : Call) : Loaded :=
  fetchLiveData c (call_now x) (call_live x) (call_store x).

(** The cache after some calls, one after the other. *)
Definition client_run (c : ClientCache) (xs : list Call) : ClientCache :=
  fold_left (fun c x => client_cache (call c x)) xs c.

(** *** Filtering *)

(** [state.filters] of the page; a property that is absent reads like
    the empty text. *)
Record Filters := {
  f_category : string;
  f_search : string;
  f_district : string;
  f_priceRange : string;
  f_location : string;
  f_minRating : float;
}.

(** [filters.x && filters.x !== 'all'] *)
Definition chosen (x : string) : bool := negb (String.eqb x "") && negb (String.eqb x "all").

(** [array.filter(callback)] with a callback that can throw: [None] when it
    throws at some element. *)
Fixpoint filter_throwing {A : Type} (p : A -> option bool) (l : list A) : option (list A) :=
  match l with
  | [] => Some []
  | x :: rest =>
      match p x with
      | None => None
      | Some b =>
          match filter_throwing p rest with
          | None => None
          | Some kept => Some (if b then x :: kept else kept)
          end
      end
  end.

Section Filtering.
Context `{JSString}.
(** [parseFloat(s)], the number read from a text. *)
Variable parseFloat_number : string -> float.

(** [parseFloat(op.rating)]: a number is printed and read back. *)
Definition rating_number (r : Rating) : float :=
  match r with
  | RatingText s => parseFloat_number s
  | RatingNumber x => x
  end.

(** The callback of the search filter; [None] is the TypeError of
    [op.email.toLowerCase()] on a record without [email]. *)
Definition matches_search (query : string) (op : ClientOperator) : option bool :=
  if includes (toLowerCase (c_name op)) query then Some true
  else if includes (toLowerCase (ca_full (c_address op))) query then Some true
  else match c_email op with
       | None => None
       | Some email =>
           Some (includes (toLowerCase email) query
                 || includes (toLowerCase (c_district op)) query
                 || includes (toLowerCase (c_location op)) query)
       end.

(** [filterOperators(operators, filters)]; [None] when it throws. *)
Definition filterOperators (operators : list ClientOperator) (filters : Filters)
  : option (list ClientOperator) :=
  let filtered := operators in
  let filtered :=
    if chosen (f_category filters)
    then filter (fun op => String.eqb (c_category op) (f_category filters)) filtered
    else filtered in
  let filtered :=
    if chosen (f_district filters)
    then filter (fun op => String.eqb (c_district op) (f_district filters)) filtered
    else filtered in
  let filtered :=
    if chosen (f_location filters)
    then filter (fun op => String.eqb (c_location op) (f_location filters)) filtered
    else filtered in
  let filtered :=
    if chosen (f_priceRange filters)
    then filter (fun op => String.eqb (c_priceRange op) (f_priceRange filters)) filtered
    else filtered in
  let filtered :=
    if negb (PrimFloat.is_zero (f_minRating filters) || PrimFloat.is_nan (f_minRating filters))
    then filter (fun op => (f_minRating filters <=? rating_number (c_rating op))%float) filtered
    else filtered in
  if negb (String.eqb (f_search filters) "")
  then filter_throwing (matches_search (toLowerCase (f_search filters))) filtered
  else Some filtered.

End Filtering.

(** [state.filters] when the page starts (app.js). *)
Definition filters_at_start : Filters :=
  {| f_category := "all"; f_search := ""; f_district := "all"; f_priceRange := "all";
     f_location := "all"; f_minRating := 0 |}.

(** The listener of the search box: [state.filters.search = e.target.value]. *)
Definition set_search (filters : Filters) (value : string) : Filters :=
  {| f_category := f_category filters; f_search := value; f_district := f_district filters;
     f_priceRange := f_priceRange filters; f_location := f_location filters;
     f_minRating := f_minRating filters |}.

End Prototype.

(* ===================================================================== *)
(** ** The page of the Next.js application (app/page.tsx) *)
(* ===================================================================== *)

Module Home.
Section Filtering.
Context `{JSString}.
(** [parseFloat(s)], the number read from a text. *)
Variable parseFloat_number : string -> float.

(** The [filters] state. *)
Record Filters := {
  district : string;
  priceRange : string;
  minRating : float;
}.

Definition matchesSearch (searchQuery : string) (op : OperatorData) : bool :=
  includes (toLowerCase (op_name op)) (toLowerCase searchQuery)
  || includes (toLowerCase (addr_full (op_address op))) (toLowerCase searchQuery)
  || includes (toLowerCase (op_location op)) (toLowerCase searchQuery).

Definition matchesCategory (activeCategory : string) (op : OperatorData) : bool :=
  String.eqb activeCategory "all"
  || (String.eqb activeCategory "diving" && includes (toLowerCase (op_category op)) "diving")
  || (String.eqb activeCategory "adventure"
      && includes (toLowerCase (op_category op)) "adventure")
  || (String.eqb activeCategory "mayan" && includes (toLowerCase (op_category op)) "mayan")
  || (String.eqb activeCategory "resort" && includes (toLowerCase (op_category op)) "resort")
  || (String.eqb activeCategory "cayo" && String.eqb (op_district op) "Cayo")
  || (String.eqb activeCategory "sanpedro" && includes (op_location op) "San Pedro").

Definition matchesDistrict (filters : Filters) (op : OperatorData) : bool :=
  String.eqb (district filters) "all" || String.eqb (op_district op) (district filters).

Definition matchesPrice (filters : Filters) (op : OperatorData) : bool :=
  String.eqb (priceRange filters) "all" || String.eqb (op_priceRange op) (priceRange filters).

Definition matchesRating (filters : Filters) (op : OperatorData) : bool :=
  (minRating filters <=? parseFloat_number (op_rating op))%float.

(** [filteredOperators] *)
Definition filteredOperators (operators : list OperatorData) (searchQuery activeCategory : string)
    (filters : Filters) : list OperatorData :=
  filter (fun op => matchesSearch searchQuery op && matchesCategory activeCategory op
                    && matchesDistrict filters op && matchesPrice filters op
                    && matchesRating filters op)
         operators.

End Filtering.

(** The state the page starts with. *)
Definition filters_at_start : Filters :=
  {| district := "all"; priceRange := "all"; minRating := 0 |}.

End Home.

(* ===================================================================== *)
(** ** The search function (supabase/functions/search-operators/index.ts) *)
(* ===================================================================== *)

Module Edge.

(** [Deno.env] *)
Record Env := {
  AMADEUS_API_KEY : option string;
  AMADEUS_SECRET_KEY : option string;
}.

(** [x || undefined] on a text that may be absent: the empty text is falsy. *)
Definition truthy_text (x : option string) : option string :=
  match x with
  | Some s => if String.eqb s "" then None else Some s
  | None => None
  end.

(** [url.searchParams.get(key)]: the first value given for [key]. *)
Fixpoint searchParams_get (params : list (string * string)) (key : string) : option string :=
  match params with
  | [] => None
  | (k, v) :: rest => if String.eqb k key then Some v else searchParams_get rest key
  end.

Record SearchParams := {
  city : option string;
  category : option string;
  query : option string;
}.

Record Request := {
  method : string;
  searchParams : list (string * string);
}.

(** The requests the function sends to Amadeus: the body of the token
    request; the keyword (before [encodeURIComponent]) and the token of the
    search request, an absent token printing as [undefined]. *)
Inductive Sent :=
| TokenRequest (body : string)
| SearchRequest (keyword : string) (token : option string).

Section Handler.
(** The JSON values of a reply of Amadeus. *)
Variable JSON : Type.
Variable empty_array : JSON.

(** What the function reads of the two replies: [ok], [statusText], and of
    the parsed body [access_token], or [data] when it is truthy; reading the
    body is rejected when it is not JSON. *)
Record TokenResponse := {
  token_ok : bool;
  token_statusText : string;
  access_token : Settled (option string);
}.

Record SearchResponse := {
  search_ok : bool;
  search_statusText : string;
  search_data : Settled (option JSON);
}.

Record Amadeus := {
  token_endpoint : string -> Settled TokenResponse;
  locations_endpoint : string -> option string -> Settled SearchResponse;
}.

Inductive Body :=
| NoBody
| ErrorBody (error : string)
| ResultsBody (results : JSON).

Record Handled := {
  status : nat;
  body : Body;
  sent : list Sent;
}.

(** [getAmadeusToken()] *)
Definition getAmadeusToken (env : Env) (amadeus : Amadeus)
  : Settled (option string) * list Sent :=
  match truthy_text (AMADEUS_API_KEY env), truthy_text (AMADEUS_SECRET_KEY env) with
  | Some clientId, Some clientSecret =>
      let body := "grant_type=client_credentials&client_id=" ++ clientId
                  ++ "&client_secret=" ++ clientSecret in
      (match token_endpoint amadeus body with
       | Fulfilled response =>
           if token_ok response then access_token response
           else Rejected ("Failed to get Amadeus token: " ++ token_statusText response)
       | Rejected message => Rejected message
       end,
       [TokenRequest body])
  | _, _ => (Rejected "Missing Amadeus credentials", [])
  end.

(** [searchHotels(city, token)] *)
Definition searchHotels (amadeus : Amadeus) (city : string) (token : option string)
  : Settled JSON :=
  match locations_endpoint amadeus city token with
  | Fulfilled response =>
      if search_ok response then
        match search_data response with
        | Fulfilled (Some data) => Fulfilled data
        | Fulfilled None => Fulfilled empty_array
        | Rejected message => Rejected message
        end
      else Rejected ("Failed to search hotels: " ++ search_statusText response)
  | Rejected message => Rejected message
  end.

(** The handler given to [Deno.serve]. *)
Definition serve (env : Env) (amadeus : Amadeus) (req : Request) : Handled :=
  if String.eqb (method req) "OPTIONS" then {| status := 200; body := NoBody; sent := [] |}
  else
    let params := {| city := truthy_text (searchParams_get (searchParams req) "city");
                     category := truthy_text (searchParams_get (searchParams req) "category");
                     query := truthy_text (searchParams_get (searchParams req) "query") |} in
    match city params, query params with
    | None, None =>
        {| status := 400; body := ErrorBody "Missing city or query parameter"; sent := [] |}
    | _, _ =>
        match getAmadeusToken env amadeus with
        | (Rejected message, sent1) =>
            {| status := 500; body := ErrorBody message; sent := sent1 |}
        | (Fulfilled token, sent1) =>
            let searchQuery :=
              match city params, query params with
              | Some c, _ => c
              | None, Some q => q
              | None, None => ""
              end in
            match searchHotels amadeus searchQuery token with
            | Fulfilled results =>
                {| status := 200; body := ResultsBody results;
                   sent := (sent1 ++ [SearchRequest searchQuery token])%list |}
            | Rejected message =>
                {| status := 500; body := ErrorBody message;
                   sent := (sent1 ++ [SearchRequest searchQuery token])%list |}
            end
        end
    end.

End Handler.

Arguments NoBody {JSON}.
Arguments ErrorBody {JSON} error.
Arguments ResultsBody {JSON} results.
Arguments status {JSON} h.
Arguments body {JSON} h.
Arguments sent {JSON} h.
Arguments search_ok {JSON} s.
Arguments search_statusText {JSON} s.
Arguments search_data {JSON} s.
Arguments token_endpoint {JSON} a.
Arguments locations_endpoint {JSON} a.
Arguments getAmadeusToken {JSON} env amadeus.
Arguments searchHotels {JSON} empty_array amadeus city token.
Arguments serve {JSON} empty_array env amadeus req.

End Edge.

(* ===================================================================== *)
(** ** The search form (components/SearchOperators.tsx) *)
(* ===================================================================== *)

Module SearchForm.
Section Form.
Variable JSON : Type.
Variable empty_array : JSON.
(** [Array.isArray(data)] *)
Variable isArray : JSON -> bool.

(** The state the handler writes. *)
Record State := {
  results : JSON;
  loading : bool;
  error : string;
}.

(** The [URLSearchParams] the form builds: a field left empty is not sent. *)
Definition params_of (searchQuery selectedCity selectedCategory : string)
  : list (string * string) :=
  ((if String.eqb searchQuery "" then [] else [("query", searchQuery)])
   ++ (if String.eqb selectedCity "" then [] else [("city", selectedCity)])
   ++ (if String.eqb selectedCategory "" then [] else [("category", selectedCategory)]))%list.

(** [response.ok] *)
Definition ok (status : nat) : bool := ((200 <=? status) && (status <=? 299))%nat.

(** [handleSearch], the search function answering its [fetch]; a reply
    without a body makes [response.json()] reject. *)
Definition handleSearch (env : Edge.Env) (amadeus : Edge.Amadeus JSON) (st : State)
    (searchQuery selectedCity selectedCategory : string) : State * list Edge.Sent :=
  let response :=
    Edge.serve empty_array env amadeus
      {| Edge.method := "GET";
         Edge.searchParams := params_of searchQuery selectedCity selectedCategory |} in
  (if ok (Edge.status response) then
     match Edge.body response with
     | Edge.ResultsBody data =>
         {| results := if isArray data then data else empty_array; loading := false;
            error := "" |}
     | Edge.ErrorBody _ => {| results := empty_array; loading := false; error := "" |}
     | Edge.NoBody =>
         {| results := results st; loading := false;
            error := "Failed to search operators. Please try again." |}
     end
   else {| results := results st; loading := false;
           error := "Failed to search operators. Please try again." |},
   Edge.sent response).

End Form.

Arguments results {JSON} s.
Arguments loading {JSON} s.
Arguments error {JSON} s.
Arguments handleSearch {JSON} empty_array isArray env amadeus st
  searchQuery selectedCity selectedCategory.

End SearchForm.

(* ===================================================================== *)
(** ** Vocabulary of the properties *)
(* ===================================================================== *)



(** A site that answers every request, each page carrying a control for the
    next page whose postback instruction parses. *)
Definition always_next (remote : Remote) : Prop :=
  forall reqs, reqs <> [] ->
  exists resp href groups,
    remote reqs = Fulfilled resp /\
    nextLink (data resp) (S (List.length reqs)) = Some href /\
    doPostBack_match href = Some groups.

Definition is_post (r : Request) : Prop :=
  match r with Post _ _ => True | Get => False end.

(** Texts without a quote character. *)
Fixpoint no_quote (s : string) : bool :=
  match s with
  | EmptyString => true
  | String c s' => negb (Ascii.eqb c quote) && no_quote s'
  end.

(** A site that answers the [n]-th request of a walk with the [n]-th of the
    responses [resps]. *)
Definition serves (remote : Remote) (resps : list Response) : Prop :=
  forall reqs resp,
    reqs <> [] -> nth_error resps (List.length reqs - 1) = Some resp ->
    remote reqs = Fulfilled resp.

(** The page offers a control for page [n] whose instruction parses. *)
Definition has_next (resp : Response) (n : nat) : Prop :=
  exists href groups,
    nextLink (data resp) n = Some href /\ doPostBack_match href = Some groups.

(** The page offers no control for page [n], or one that does not parse. *)
Definition no_next (resp : Response) (n : nat) : Prop :=
  match nextLink (data resp) n with
  | Some href => doPostBack_match href = None
  | None => True
  end.

(** The table rows of some pages, in page order. *)
Definition rows_of (resps : list Response) : list Row :=
  List.concat (map (fun resp => rows (data resp)) resps).

(** The number of requests that arrived during some events. *)
Definition arrivals (es : list Event) : nat :=
  List.length (filter (fun e => match e with Arrive _ => true | Settle _ _ => false end) es).

(** A reply states the length of the collection it carries. *)
Definition counted (r : Reply) : Prop :=
  match r with
  | Success count data _ => count = List.length data
  | Failure _ _ => True
  end.

(** What every run of the server keeps true. *)
Definition server_invariant (s : Server) : Prop :=
  Forall counted (replies s) /\
  (forall ops, cachedOperators (cache s) = Some ops ->
               In (Success (List.length ops) ops false) (replies s)) /\
  (forall n ops, In (Success n ops true) (replies s) -> In (Success n ops false) (replies s)).

(** Texts in which the character [c] does not occur. *)
Fixpoint lacks (c : ascii) (s : string) : bool :=
  match s with
  | EmptyString => true
  | String c' s' => negb (Ascii.eqb c' c) && lacks c s'
  end.

(** The values the derived fields of a record can take. *)
Definition district_values : list string :=
  ["Belize"; "Cayo"; "Stann Creek"; "Corozal"; "Orange Walk"; "Toledo"].
Definition category_values : list string :=
  ["Diving"; "Mayan Tours"; "Adventure"; "Fishing"; "Resort"; "Rentals"; "General"].
Definition priceRange_values : list string := ["$"; "$$"; "$$$"].

(** The mantissas of the floats 0.8 (exponent -53) and 4.2 (exponent -50). *)
Definition M08 : Z := 7205759403792794.
Definition M42 : Z := 4728779608739021.

(** The five fields the [formData] literal starts with. *)
Definition aspnet_fields : list string :=
  ["__EVENTTARGET"; "__EVENTARGUMENT"; "__VIEWSTATE"; "__VIEWSTATEGENERATOR";
   "__EVENTVALIDATION"].

(** The names the callback of [$('input').each] can add: not empty, not
    inherited from [Object.prototype], and neither of the two it excludes. *)
Definition addable (name : string) : bool :=
  negb (String.eqb name "") && negb (existsb (String.eqb name) object_prototype_keys)
  && negb (String.eqb name "__VIEWSTATE") && negb (String.eqb name "__EVENTVALIDATION").

(** The texts [generateRating] can return. *)
Definition ratings : list string :=
  ["4.2"; "4.3"; "4.4"; "4.5"; "4.6"; "4.7"; "4.8"; "4.9"; "5.0"].

(** Texts made of characters of the class [f] only. *)
Fixpoint string_forall (f : ascii -> bool) (s : string) : bool :=
  match s with
  | EmptyString => true
  | String c s' => f c && string_forall f s'
  end.

(** The characters of an id of the prototype. *)
Definition id_class (c : ascii) : bool := is_lower_alnum c || Ascii.eqb c Prototype.dash.

(** The mantissa of the float 1000 (exponent -43). *)
Definition M1000 : Z := 8796093022208000.

(** The places that [extractLocation] can name and that put an address in
    the Cayo district. *)
Definition cayo_towns : list string := ["San Ignacio"; "Santa Elena"; "Benque"].

(** The primitive [toLowerCase] on the texts [l], all of them ASCII. *)
Definition lowers `{JSString} (l : list string) : Prop :=
  Forall (fun s => toLowerCase s = ascii_toLowerCase s) l.

(** The live fetch brought no records: it was rejected, the server replied
    with a failure, or with an empty collection. *)
Definition no_live_data (live : Settled Reply) : Prop :=
  match live with
  | Fulfilled (Success _ (_ :: _) _) => False
  | _ => True
  end.

(** The [set-cookie] headers of the latest of the first [n] responses of a
    walk that had any. *)
Fixpoint latest_set_cookie (remote : Remote) (reqs : list Request) (n : nat)
  : option (list string) :=
  match n with
  | 0 => None
  | S m =>
      match remote (firstn n reqs) with
      | Fulfilled r =>
          match set_cookie r with
          | Some cs => Some cs
          | None => latest_set_cookie remote reqs m
          end
      | Rejected _ => latest_set_cookie remote reqs m
      end
  end.

(** Every postback among [reqs] carries the latest cookies set before it. *)
Definition cookies_sent (deployment : Deployment) (remote : Remote) (reqs : list Request)
  : Prop :=
  forall i body cookie,
    nth_error reqs i = Some (Post body cookie) ->
    cookie = cookie_header deployment
               (option_map cookie_string (latest_set_cookie remote reqs i)).

(** The category each chip of the page stands for. *)
Definition chip_category : list (string * string) :=
  [("diving", "Diving"); ("adventure", "Adventure"); ("mayan", "Mayan Tours");
   ("resort", "Resort")].

(** The chips of the page. *)
Definition chips : list string :=
  ["all"; "diving"; "adventure"; "mayan"; "resort"; "cayo"; "sanpedro"].

(** What the client's cache holds after any calls: nothing, or a list that
    is not empty, came from the server and has a time stamp. *)
Definition client_invariant (c : Prototype.ClientCache) : Prop :=
  Prototype.expiryMinutes c = 30%Z /\
  match Prototype.cache_data c with
  | Some data => data <> [] /\ (exists ops, data = map Prototype.of_server ops)
                 /\ Prototype.cache_timestamp c <> None
  | None => Prototype.cache_timestamp c = None
  end.

(* ===================================================================== *)
(** ** Sample inputs *)
(* ===================================================================== *)

(** Page [n] of a listing whose pager always offers page [n + 1]. *)
Definition page_with_next (n : nat) : Page :=
  {| rows := [["Name"; "Phone"; "Address"; "Email"; "Website"];
              ["Operator " ++ decimal (Z.of_nat n); "501-0000"; "Cayo"; "op@example.bz"]];
     anchors := ["javascript:__doPostBack('ctl00$Main$GridView1','Page$"
                 ++ decimal (Z.of_nat (S n)) ++ "')"];
     viewState := Some "dDwtMTA4"; eventValidation := Some "/wEWAgK";
     viewStateGenerator := Some "CA0B0334";
     inputs := [(Some "__VIEWSTATE", Some "dDwtMTA4"); (Some "ctl00$Search", Some "")] |}.

Definition last_page : Page :=
  {| rows := [["Last Operator"; "501-9999"; "Punta Gorda"; "last@example.bz"; "example.bz"]];
     anchors := []; viewState := None; eventValidation := None;
     viewStateGenerator := None; inputs := [] |}.

(** A site that never runs out of pages. *)
Definition endless_site : Remote :=
  fun reqs => Fulfilled {| data := page_with_next (List.length reqs);
                           set_cookie := Some ["ASP.NET_SessionId=abc; path=/; HttpOnly"] |}.

(** A site of three pages. *)
Definition three_pages : Remote :=
  fun reqs => Fulfilled {| data := if (List.length reqs <? 3)%nat
                                   then page_with_next (List.length reqs) else last_page;
                           set_cookie := None |}.

(** A site whose second page cannot be fetched. *)
Definition broken_site : Remote :=
  fun reqs => if (List.length reqs <? 2)%nat
              then Fulfilled {| data := page_with_next (List.length reqs); set_cookie := None |}
              else Rejected "Request failed with status code 500".

Definition half : nat -> float := fun _ => 0.5%float.

(** Two supplies of random draws that differ only in the first draw. *)
Definition draws_a : nat -> float := fun n => if (n =? 0)%nat then 0.25%float else 0.5%float.
Definition draws_b : nat -> float := fun n => if (n =? 0)%nat then 0.75%float else 0.5%float.

Definition sample_row : Row :=
  ["Sea Dive Co"; "555-1234"; "San Pedro, Ambergris Caye"; "info@seadive.bz"].

(** What [sample_row] becomes, up to the id. *)
Definition sample_operator (id : string) : OperatorData :=
  {| op_id := id; op_name := "Sea Dive Co"; op_phone := "555-1234";
     op_address := {| addr_full := "San Pedro, Ambergris Caye"; addr_district := "Belize" |};
     op_email := "info@seadive.bz"; op_website := "";
     op_district := "Belize"; op_location := "San Pedro";
     op_category := "Diving"; op_priceRange := "$$"; op_rating := "4.6" |}.

(** A cache filled at time 0. *)
Definition stale_cache : Cache :=
  {| cachedOperators := Some [sample_operator "seadiveco7"]; lastCacheTime := 0 |}.

(** Credentials, and an Amadeus that answers every keyword with itself. *)
Definition sample_env : Edge.Env :=
  {| Edge.AMADEUS_API_KEY := Some "key"; Edge.AMADEUS_SECRET_KEY := Some "secret" |}.

Definition sample_amadeus : Edge.Amadeus (list string) :=
  {| Edge.token_endpoint := fun _ =>
       Fulfilled {| Edge.token_ok := true; Edge.token_statusText := "OK";
                    Edge.access_token := Fulfilled (Some "t0k3n") |};
     Edge.locations_endpoint := fun keyword _ =>
       Fulfilled {| Edge.search_ok := true; Edge.search_statusText := "OK";
                    Edge.search_data := Fulfilled (Some [keyword]) |} |}.

Definition sample_state : SearchForm.State (list string) :=
  {| SearchForm.results := []; SearchForm.loading := false; SearchForm.error := "" |}.

(* ===================================================================== *)
(** ** The code on concrete inputs *)
(* ===================================================================== *)

Example ex_district : extractDistrict "12 Burns Ave, San Ignacio" = "Cayo".
Proof. reflexivity. Qed.

Example ex_category : categorizeOperator "Blue Dive Resort" = "Diving".
Proof. reflexivity. Qed.

Example ex_rating_lo : generateRating 0 = "4.2".
Proof. reflexivity. Qed.

Example ex_rating_hi : generateRating 0x1.fffffffffffffp-1 = "5.0".
Proof. reflexivity. Qed.

Example ex_rating_mid : generateRating 0.5 = "4.6".
Proof. reflexivity. Qed.

Example ex_id : generateId "Sea Sports Belize Ltd." 0.4567 = "seasportsb456".
Proof. reflexivity. Qed.

Example ex_toFixed_tie : toFixed1 0.25 = "0.3".
Proof. reflexivity. Qed.

Example ex_toFixed_below : toFixed1 4.35 = "4.3".
Proof. reflexivity. Qed.

Example ex_match :
  doPostBack_match "javascript:__doPostBack('ctl00$Main$GridView1','Page$2')"
  = Some ("ctl00$Main$GridView1", "Page$2").
Proof. reflexivity. Qed.

Example ex_extract :
  fst (extractOperatorsFromTable half 0
        [["Name"; "Phone"; "Address"; "Email"];
         ["  Sea Dive Co "; "555"; "San Pedro, Ambergris Caye"; "a@b.bz"];
         ["x"; "y"]])
  = [ {| op_id := "seadiveco500"; op_name := "Sea Dive Co"; op_phone := "555";
         op_address := {| addr_full := "San Pedro, Ambergris Caye"; addr_district := "Belize" |};
         op_email := "a@b.bz"; op_website := "";
         op_district := "Belize"; op_location := "San Pedro";
         op_category := "Diving"; op_priceRange := "$$"; op_rating := "4.6" |} ].
Proof. reflexivity. Qed.

(** Three pages: one GET, two POSTs, the records in page order. *)
Example ex_three_pages :
  let w := scrapeAllPages ServerJs half three_pages 0 in
  List.length (sent_after w) = 3 /\
  match settled w with
  | Fulfilled ops => map op_name ops = ["Operator 1"; "Operator 2"; "Last Operator"]
  | Rejected _ => False
  end.
Proof. vm_compute. split; reflexivity. Qed.

(* ===================================================================== *)
(** ** Field Normalizer: properties *)
(* ===================================================================== *)

Section NormalizerFacts.
Context `{JSString}.

Lemma eqb_empty_includes (s kw : string) :
  includes (toLowerCase s) kw = true -> kw <> "" -> String.eqb s "" = false.
Proof.
  intros Hin Hkw. destruct (String.eqb_spec s "") as [->|]; [|reflexivity].
  rewrite toLowerCase_empty in Hin. destruct kw; [congruence | discriminate].
Qed.

(** C7. A name whose lower-cased form contains "dive" is categorised
    "Diving", whatever else it contains (in particular "resort"): the diving
    group is the first one tested. *)
Theorem dive_is_diving (name : string) :
  includes (toLowerCase name) "dive" = true ->
  categorizeOperator name = "Diving".
Proof.
  intros Hdive. unfold categorizeOperator.
  rewrite (eqb_empty_includes name "dive" Hdive) by discriminate.
  cbv zeta. now rewrite Hdive.
Qed.

(** C8. An address whose lower-cased form contains none of the recognised
    district and settlement keywords gets the district "Belize", and no
    address gets "Unknown". *)
Theorem unrecognised_address_is_belize (address : string) :
  Forall (fun kw => includes (toLowerCase address) kw = false) district_keywords ->
  extractDistrict address = "Belize" /\ extractDistrict address <> "Unknown".
Proof.
  intros Hnone. unfold district_keywords in Hnone.
  repeat match goal with
         | Hf : Forall _ (_ :: _) |- _ => apply Forall_cons_iff in Hf; destruct Hf as [? ?]
         end.
  unfold extractDistrict.
  destruct (String.eqb address ""); [split; [reflexivity | discriminate]|].
  cbv zeta.
  repeat match goal with
         | Hk : includes _ _ = false |- _ => rewrite Hk; clear Hk
         end.
  split; [reflexivity | discriminate].
Qed.

(** No address at all is mapped to "Unknown". *)
Lemma extractDistrict_values (address : string) :
  In (extractDistrict address)
     ["Belize"; "Cayo"; "Stann Creek"; "Corozal"; "Orange Walk"; "Toledo"].
Proof.
  unfold extractDistrict.
  repeat match goal with
         | |- context [if ?b then _ else _] => destruct b
         end; simpl; tauto.
Qed.

End NormalizerFacts.

Lemma dive_is_diving_witness :
  includes (toLowerCase "Blue Dive Resort") "dive" = true /\
  categorizeOperator "Blue Dive Resort" = "Diving".
Proof. split; [reflexivity | apply dive_is_diving; reflexivity]. Defined.

Lemma unrecognised_address_is_belize_witness :
  extractDistrict "Mile 4, Northern Highway" = "Belize" /\
  extractDistrict "Mile 4, Northern Highway" <> "Unknown".
Proof.
  apply unrecognised_address_is_belize.
  repeat (constructor; [reflexivity|]). constructor.
Defined.

(* ===================================================================== *)
(** ** Page Extractor: properties *)
(* ===================================================================== *)

Section ExtractorFacts.
Context `{JSString}.
Variable random : nat -> float.


(** What a kept row becomes. *)
Lemma extractRow_kept (k k' : nat) (tds : Row) (o : OperatorData) :
  extractRow random k tds = (Some o, k') ->
  k' = S (S k) /\
  4 <= List.length tds /\
  o = {| op_id := generateId (cell tds 0) (random k);
         op_name := cell tds 0;
         op_phone := cell tds 1;
         op_address := {| addr_full := cell tds 2;
                          addr_district := extractDistrict (cell tds 2) |};
         op_email := cell tds 3;
         op_website := cell tds 4;
         op_district := extractDistrict (cell tds 2);
         op_location := extractLocation (cell tds 2);
         op_category := categorizeOperator (cell tds 0);
         op_priceRange := estimatePriceRange (cell tds 0);
         op_rating := generateRating (random (S k)) |}.
Proof.
  unfold extractRow.
  destruct (Nat.ltb_spec (List.length tds) 4); [discriminate|].
  destruct (_ || _ || _); [discriminate|].
  intros [= <- <-]. auto.
Qed.

(** Every record of a page comes from one of its rows. *)
Lemma extracted_from_row (rows : list Row) :
  forall k o, In o (fst (extractOperatorsFromTable random k rows)) ->
  exists k0 tds, In tds rows /\ extractRow random k0 tds = (Some o, S (S k0)).
Proof.
  induction rows as [|tds rest IH]; intros k o; cbn [extractOperatorsFromTable].
  - intros [].
  - destruct (extractRow random k tds) as [r k1] eqn:Hrow.
    destruct (extractOperatorsFromTable random k1 rest) as [os k2] eqn:Hrest.
    cbn [fst]. intros Hin.
    assert (Hcases : (r = Some o) \/ In o os)
      by (destruct r; [destruct Hin as [->|]|]; auto).
    destruct Hcases as [-> | Hos].
    + exists k, tds. split; [now left|].
      destruct (extractRow_kept _ _ _ _ Hrow) as (-> & _ & _). exact Hrow.
    + destruct (IH k1 o) as (k0 & tds0 & ? & ?); [now rewrite Hrest|].
      exists k0, tds0. split; [now right | assumption].
Qed.

(** C10. In every record the extractor produces, the district nested in the
    address equals the top-level district. *)
Theorem nested_district_is_district (k : nat) (rows : list Row) (o : OperatorData) :
  In o (fst (extractOperatorsFromTable random k rows)) ->
  addr_district (op_address o) = op_district o.
Proof.
  intros Hin. destruct (extracted_from_row _ _ _ Hin) as (k0 & tds & _ & Hrow).
  destruct (extractRow_kept _ _ _ _ Hrow) as (_ & _ & ->). reflexivity.
Qed.


(** C5 (as amended). Of two records kept with the same name and the same
    address text, the address, district, location, category and price range
    agree; the id is the name's prefix followed by the integer part of a
    random draw times 1000, the rating comes from the next draw, and phone,
    email and website are the row's own second, fourth and fifth cells. *)
Theorem derived_fields_of_name_and_address
    (random' : nat -> float) (k k' : nat) (tds tds' : Row) (o o' : OperatorData) :
  extractRow random k tds = (Some o, S (S k)) ->
  extractRow random' k' tds' = (Some o', S (S k')) ->
  op_name o = op_name o' ->
  addr_full (op_address o) = addr_full (op_address o') ->
  (op_address o = op_address o' /\ op_district o = op_district o' /\
   op_location o = op_location o' /\ op_category o = op_category o' /\
   op_priceRange o = op_priceRange o') /\
  (op_id o = idPrefix (op_name o) ++ floor_toString (random k * 1000)%float /\
   op_id o' = idPrefix (op_name o') ++ floor_toString (random' k' * 1000)%float) /\
  (op_phone o = cell tds 1 /\ op_email o = cell tds 3 /\ op_website o = cell tds 4).
Proof.
  intros Hrow Hrow' Hname Haddr.
  destruct (extractRow_kept _ _ _ _ Hrow) as (_ & _ & ->).
  unfold extractRow in Hrow'.
  destruct (List.length tds' <? 4)%nat; [discriminate|].
  destruct (_ || _ || _); [discriminate|].
  injection Hrow' as <-.
  cbn in Hname, Haddr |- *. rewrite Hname, Haddr. repeat split; reflexivity.
Qed.

End ExtractorFacts.

(** C5 (as stated) fails: the same row, hence the same name and address,
    extracted twice gets two different ids although every other field,
    the rating included, is the same. *)
Lemma id_differs_between_extractions :
  extractRow draws_a 0 sample_row = (Some (sample_operator "seadiveco250"), 2) /\
  extractRow draws_b 0 sample_row = (Some (sample_operator "seadiveco750"), 2) /\
  op_id (sample_operator "seadiveco250") <> op_id (sample_operator "seadiveco750").
Proof. repeat split; [vm_compute; reflexivity .. | discriminate]. Qed.

Lemma nested_district_is_district_witness :
  addr_district (op_address (sample_operator "seadiveco500"))
  = op_district (sample_operator "seadiveco500").
Proof.
  apply (nested_district_is_district half 0 [sample_row]).
  vm_compute. left. reflexivity.
Defined.

Lemma derived_fields_of_name_and_address_witness :
  op_address (sample_operator "seadiveco250") = op_address (sample_operator "seadiveco750") /\
  op_category (sample_operator "seadiveco250") = op_category (sample_operator "seadiveco750").
Proof.
  destruct (derived_fields_of_name_and_address draws_a draws_b 0 0 sample_row sample_row
              (sample_operator "seadiveco250") (sample_operator "seadiveco750"))
    as ((Ha & _ & _ & Hc & _) & _ & _); try (vm_compute; reflexivity).
  split; assumption.
Defined.

(* ===================================================================== *)
(** ** Pagination Walker: properties *)
(* ===================================================================== *)


Lemma firstn_snoc_all {A} (l : list A) (x : A) :
  firstn (S (List.length l)) (l ++ [x])%list = (l ++ [x])%list.
Proof.
  rewrite <- (firstn_all (l ++ [x])%list) at 2. now rewrite length_app, Nat.add_1_r.
Qed.



Section WalkerFacts.
Context `{JSString}.
Variable deployment : Deployment.
Variable random : nat -> float.
Variable remote : Remote.

Abbreviation loop := (while_hasNextPage deployment random remote).




(** On a site that always offers a next page, the loop entered at page
    [pageCount w] sends one POST for each of the pages up to page 16. *)
Lemma loop_on_endless_site (n : nat) :
  always_next remote ->
  forall w, pages_left w <= n ->
  1 <= pageCount w <= 15 ->
  List.length (sent w) = pageCount w ->
  remote (sent w) = Fulfilled (response w) ->
  exists posts ops,
    sent_after (loop w) = (sent w ++ posts)%list /\
    List.length posts = 16 - pageCount w /\
    Forall is_post posts /\
    settled (loop w) = Fulfilled ops.
Proof.
  intros Hnext. induction n as [|n IH]; intros w Hn Hpc Hlen Hresp;
    [unfold pages_left in Hn; lia|].
  rewrite while_hasNextPage_equation_1; cbv zeta.
  destruct (Hnext (sent w)) as (resp & href & [t a] & Hr & Hlink & Hmatch).
  { destruct (sent w); [simpl in Hlen; lia | discriminate]. }
  assert (resp = response w) as -> by congruence.
  rewrite Hlen in Hlink. replace (pageCount w + 1) with (S (pageCount w)) by lia.
  rewrite Hlink, Hmatch.
  set (request := Post _ _).
  destruct (Hnext (sent w ++ [request])%list) as (resp' & href' & g' & Hr' & _ & _).
  { destruct (sent w); discriminate. }
  rewrite Hr'.
  destruct (le_lt_dec (S (pageCount w)) 15) as [Hle|Hgt].
  - match goal with
    | |- context [while_hasNextPage _ _ _ ?w'] =>
        destruct (IH w') as (posts & ops & Hsent & Hposts & Hall & Hset)
    end.
    + unfold pages_left in *. cbn [pageCount]. lia.
    + cbn [pageCount]. lia.
    + cbn [sent pageCount]. rewrite length_app. cbn. lia.
    + exact Hr'.
    + cbn [sent pageCount] in *.
      exists (request :: posts), ops. rewrite Hsent, <- app_assoc.
      split; [reflexivity|]. split; [cbn [List.length]; lia|].
      split; [constructor; [exact I | assumption] | assumption].
  - eexists [request], _.
    split; [reflexivity|]. split; [cbn [List.length]; lia|].
    split; [repeat constructor | reflexivity].
Qed.

(** C3 (what the code does). On a site every page of which offers a valid
    next-page control, a walk ends without error, but after 16 requests: the
    GET and 15 POSTs. *)
Theorem endless_site_takes_sixteen_fetches (k : nat) :
  always_next remote ->
  let r := scrapeAllPages deployment random remote k in
  (exists ops, settled r = Fulfilled ops) /\
  List.length (sent_after r) = 16 /\
  exists posts, sent_after r = Get :: posts /\ List.length posts = 15 /\ Forall is_post posts.
Proof.
  intros Hnext. cbv zeta. unfold scrapeAllPages.
  destruct (Hnext [Get]) as (resp & _ & _ & Hget & _ & _); [discriminate|].
  rewrite Hget.
  match goal with
  | |- context [while_hasNextPage _ _ _ ?w'] =>
      destruct (loop_on_endless_site 16 Hnext w')
        as (posts & ops & Hsent & Hposts & Hall & Hset)
  end.
  - unfold pages_left. cbn. lia.
  - cbn. lia.
  - reflexivity.
  - exact Hget.
  - cbn [sent pageCount] in *. rewrite Hsent, Hset.
    split; [now exists ops|]. split; [cbn [List.length app]; lia|].
    exists posts. split; [reflexivity|]. split; [lia | assumption].
Qed.

End WalkerFacts.

(** *** The sample sites *)

Lemma string_of_uint_no_quote (d : Decimal.uint) : no_quote (NilEmpty.string_of_uint d) = true.
Proof. induction d; cbn; auto. Qed.

Lemma decimal_no_quote (n : Z) : no_quote (decimal n) = true.
Proof.
  unfold decimal, NilZero.string_of_int, NilZero.string_of_uint.
  destruct (Z.to_int n) as [d|d]; destruct d; cbn; auto using string_of_uint_no_quote.
Qed.

Lemma span_not_quote_stops (d rest : string) :
  no_quote d = true -> span_not_quote (d ++ String quote rest) = (d, String quote rest).
Proof.
  induction d as [|c d IH]; cbn; [reflexivity|].
  intros [Hc Hd]%andb_prop. apply negb_true_iff in Hc. rewrite Hc, (IH Hd). reflexivity.
Qed.

Lemma prefix_app (a b : string) : prefix a (a ++ b) = true.
Proof.
  induction a as [|c a IH]; cbn; [now destruct b|].
  destruct (ascii_dec c c); [assumption | contradiction].
Qed.

Lemma includes_prefix (s sub : string) : prefix sub s = true -> includes s sub = true.
Proof. intros Hp. destruct s; cbn in *; rewrite Hp; reflexivity. Qed.

Lemma includes_skip (c : ascii) (s sub : string) :
  includes s sub = true -> includes (String c s) sub = true.
Proof. intros Hs. cbn [includes]. rewrite Hs. apply orb_true_r. Qed.

Lemma strip_prefix_app (p s : string) : strip_prefix p (p ++ s) = Some s.
Proof. induction p as [|c p IH]; cbn; [reflexivity|]. now rewrite Ascii.eqb_refl. Qed.

(** The expression matches [__doPostBack('t','a')] with groups [t] and [a]. *)
Lemma match_here_postback (t a rest : string) :
  no_quote t = true -> String.eqb t "" = false ->
  no_quote a = true -> String.eqb a "" = false ->
  match_here ("__doPostBack('" ++ t ++ "','" ++ a ++ "')" ++ rest) = Some (t, a).
Proof.
  intros Ht Hte Ha Hae. unfold match_here.
  rewrite strip_prefix_app.
  change ("','" ++ a ++ "')" ++ rest) with (String quote ("," ++ String quote (a ++ "')" ++ rest))).
  rewrite (span_not_quote_stops t _ Ht), Hte.
  change (String quote ("," ++ String quote (a ++ "')" ++ rest)))
    with ("','" ++ (a ++ String quote (")" ++ rest))).
  rewrite strip_prefix_app, (span_not_quote_stops a _ Ha), Hae.
  cbn. now destruct rest.
Qed.

Lemma doPostBack_match_here (s : string) (groups : string * string) :
  match_here s = Some groups -> doPostBack_match s = Some groups.
Proof. intros Hm. destruct s; cbn [doPostBack_match]; now rewrite Hm. Qed.

Lemma doPostBack_match_skip (c : ascii) (s : string) :
  match_here (String c s) = None -> doPostBack_match (String c s) = doPostBack_match s.
Proof. intros Hm. cbn [doPostBack_match]. now rewrite Hm. Qed.

Lemma page_with_next_link (n : nat) :
  exists href groups,
    nextLink (page_with_next n) (S n) = Some href /\ doPostBack_match href = Some groups.
Proof.
  unfold nextLink, page_with_next; cbn [anchors find].
  pose proof (decimal_no_quote (Z.of_nat (S n))) as Hd.
  generalize dependent (decimal (Z.of_nat (S n))). intros d Hd.
  eexists. exists ("ctl00$Main$GridView1", "Page$" ++ d).
  assert (Hinc : includes ("javascript:__doPostBack('ctl00$Main$GridView1','Page$" ++ d ++ "')")
                          ("Page$" ++ d) = true).
  { cbn [append]. do 48 apply includes_skip. apply includes_prefix.
    change (String "P" (String "a" (String "g" (String "e" (String "$" (d ++ "')"))))))
      with (("Page$" ++ d) ++ "')").
    apply prefix_app. }
  rewrite Hinc. split; [reflexivity|].
  cbn [append].
  do 11 (rewrite doPostBack_match_skip by reflexivity).
  apply doPostBack_match_here.
  apply (match_here_postback "ctl00$Main$GridView1" ("Page$" ++ d) "");
    [reflexivity | reflexivity | exact Hd | reflexivity].
Qed.

Lemma endless_site_always_next : always_next endless_site.
Proof.
  intros reqs _. unfold endless_site.
  destruct (page_with_next_link (List.length reqs)) as (href & groups & Hlink & Hmatch).
  eexists _, href, groups. split; [reflexivity|]. cbn [data]. auto.
Qed.

Lemma endless_site_takes_sixteen_fetches_witness :
  always_next endless_site /\
  List.length (sent_after (scrapeAllPages ServerJs half endless_site 0)) = 16.
Proof.
  split; [exact endless_site_always_next|].
  exact (proj1 (proj2 (endless_site_takes_sixteen_fetches ServerJs half endless_site 0
                         endless_site_always_next))).
Defined.

(** The same on the running code: sixteen requests, fifteen pages of records. *)
Example ex_endless_site :
  let r := scrapeAllPages ServerJs half endless_site 0 in
  List.length (sent_after r) = 16 /\
  match settled r with
  | Fulfilled ops => List.length ops = 15
  | Rejected _ => False
  end.
Proof. vm_compute. split; reflexivity. Qed.

(* ===================================================================== *)
(** ** Cache Layer and Service Endpoint: properties *)
(* ===================================================================== *)

Section EndpointFacts.
Context `{JSString}.
Variable deployment : Deployment.
Variable random : nat -> float.

(** A reply from the cache is marked as such. *)
Lemma GET_enter_cached (c : Cache) (now : Z) (r : Reply) :
  GET_enter c now = Some r ->
  exists ops, cachedOperators c = Some ops /\ r = Success (List.length ops) ops true
              /\ (now - lastCacheTime c < CACHE_DURATION)%Z.
Proof.
  unfold GET_enter. destruct (cachedOperators c) as [ops|]; [|discriminate].
  destruct (Z.ltb_spec (now - lastCacheTime c) CACHE_DURATION); [|discriminate].
  intros [= <-]. now exists ops.
Qed.

(** C1 (as amended). When a call has completed a successful walk and no
    other walk settles after it, a call made less than one hour (by the
    clock) after the collection was stored replies with the same
    collection, marked as cached, sends no request and leaves the cache as
    it was. *)
Theorem second_call_within_ttl_is_served_from_cache
    (remote1 remote2 : Remote) (c : Cache) (k1 k2 : nat) (t1 t1' t2 t2' : Z)
    (n : nat) (ops : list OperatorData) :
  let first := GET deployment random remote1 c k1 t1 t1' in
  reply first = Success n ops false ->
  (t2 - t1' < CACHE_DURATION)%Z ->
  let second := GET deployment random remote2 (cache_after first) k2 t2 t2' in
  reply second = Success n ops true /\
  requests second = [] /\
  cache_after second = cache_after first.
Proof.
  cbv zeta. intros Hfirst Hsoon.
  assert (Hcache : cache_after (GET deployment random remote1 c k1 t1 t1')
                   = {| cachedOperators := Some ops; lastCacheTime := t1' |}
                   /\ n = List.length ops).
  { unfold GET in *. destruct (GET_enter c t1) as [r|] eqn:Henter.
    - destruct (GET_enter_cached _ _ _ Henter) as (ops0 & _ & -> & _). discriminate.
    - destruct (settled (scrapeAllPages deployment random remote1 k1)); cbn in *;
        [injection Hfirst as <- <-; auto | discriminate]. }
  destruct Hcache as [-> ->].
  unfold GET, GET_enter; cbn [cachedOperators lastCacheTime].
  destruct (Z.ltb_spec (t2 - t1') CACHE_DURATION); [|lia].
  cbn. auto.
Qed.


(** A call that misses is an arrival followed by the settling of its walk. *)
Lemma GET_as_events (remote : Remote) (s : Server) (k : nat) (t t' : Z) :
  walks_in_flight s = 0 ->
  GET_enter (cache s) t = None ->
  let served := GET deployment random remote (cache s) k t t' in
  let s' := server_run s
              [Arrive t; Settle (settled (scrapeAllPages deployment random remote k)) t'] in
  cache s' = cache_after served /\ replies s' = (replies s ++ [reply served])%list /\
  walks_in_flight s' = 0 /\ walks_started s' = S (walks_started s).
Proof.
  intros Hidle Hmiss. cbv zeta. unfold GET, server_run; cbn [fold_left server_step].
  rewrite Hmiss. cbn [walks_in_flight cache].
  destruct (GET_resume (cache s) _ t') as [r c']. cbn. rewrite Hidle. auto.
Qed.

End EndpointFacts.

Lemma second_call_within_ttl_is_served_from_cache_witness :
  let first := GET ServerJs half three_pages cache_at_start 0 1000 2000 in
  let second := GET ServerJs half broken_site (cache_after first) 6 3601999 3602000 in
  exists ops, reply first = Success 3 ops false /\
              reply second = Success 3 ops true /\ requests second = [].
Proof.
  cbv zeta.
  destruct (settled (scrapeAllPages ServerJs half three_pages 0)) as [ops|m] eqn:Hwalk;
    [|vm_compute in Hwalk; discriminate].
  assert (Hlen : List.length ops = 3) by (vm_compute in Hwalk; now injection Hwalk as <-).
  assert (Hfirst : reply (GET ServerJs half three_pages cache_at_start 0 1000 2000)
                   = Success 3 ops false).
  { unfold GET. cbn [GET_enter cache_at_start cachedOperators]. rewrite Hwalk. cbn.
    now rewrite Hlen. }
  exists ops. split; [exact Hfirst|].
  destruct (second_call_within_ttl_is_served_from_cache ServerJs half three_pages broken_site
              cache_at_start 0 6 1000 2000 3601999 3602000 3 ops Hfirst) as (? & ? & _);
    [vm_compute; reflexivity | auto].
Defined.


(* ===================================================================== *)
(** ** Interleaved requests: properties *)
(* ===================================================================== *)

(** C4 (as amended). Calls that arrive while the cache is empty or expired,
    before any walk has settled, start one walk each: after [N] such
    arrivals [N] more walks have been started and are in flight together.
    Nothing makes a call wait for a walk another call has started. *)
Theorem every_arrival_on_a_miss_starts_a_walk (s : Server) (nows : list Z) :
  Forall (fun now => GET_enter (cache s) now = None) nows ->
  let s' := server_run s (map Arrive nows) in
  walks_started s' = walks_started s + List.length nows /\
  walks_in_flight s' = walks_in_flight s + List.length nows /\
  cache s' = cache s /\ replies s' = replies s.
Proof.
  cbv zeta. revert s. induction nows as [|now nows IH]; intros s Hmiss.
  - cbn. repeat split; lia.
  - apply Forall_cons_iff in Hmiss. destruct Hmiss as [Hnow Hrest].
    unfold server_run in *. cbn [map fold_left server_step]. rewrite Hnow.
    match goal with
    | |- context [fold_left server_step _ ?s1] => destruct (IH s1 Hrest) as (-> & -> & -> & ->)
    end.
    cbn. repeat split; lia.
Qed.

(** C4 (as stated) fails: two calls that arrive at an empty cache start two
    walks, both in flight at once. *)
Lemma two_arrivals_start_two_walks :
  let s := server_run server_at_start [Arrive 1000; Arrive 1001] in
  walks_started s = 2 /\ walks_in_flight s = 2 /\ ~ walks_started s <= 1.
Proof. vm_compute. repeat split. lia. Qed.

Lemma every_arrival_on_a_miss_starts_a_walk_witness :
  let s := server_run {| cache := stale_cache; walks_started := 1; walks_in_flight := 0;
                         replies := [] |}
                      (map Arrive [3600000; 3600001; 3600002]%Z) in
  walks_started s = 4 /\ walks_in_flight s = 3.
Proof.
  destruct (every_arrival_on_a_miss_starts_a_walk
              {| cache := stale_cache; walks_started := 1; walks_in_flight := 0; replies := [] |}
              [3600000; 3600001; 3600002]%Z) as (Hs & Hf & _).
  - repeat (constructor; [reflexivity|]). constructor.
  - cbv zeta. split; [exact Hs | exact Hf].
Defined.

(** C1 (as stated) fails: two calls arrive at an empty cache and both
    walk; the first completes a successful walk, then the other does, and a
    call made one second after the first completed is served the
    collection of the other. *)
Lemma later_walk_replaces_the_collection :
  let first := [sample_operator "seadiveco250"] in
  let other := [sample_operator "seadiveco750"] in
  let s := server_run server_at_start
             [Arrive 1000; Arrive 1001; Settle (Fulfilled first) 5000;
              Settle (Fulfilled other) 5001; Arrive 6000] in
  replies s = [Success 1 first false; Success 1 other false; Success 1 other true] /\
  (6000 - 5000 < CACHE_DURATION)%Z /\
  first <> other.
Proof. vm_compute. repeat split. discriminate. Qed.

(** Two interleaved calls on an empty cache: both walk, both reply with
    fresh data, and the collection of the walk that settles last stays. *)
Example ex_interleaved_calls :
  let s := server_run server_at_start
             [Arrive 1000; Arrive 1001;
              Settle (Fulfilled [sample_operator "seadiveco250"]) 5000;
              Settle (Fulfilled [sample_operator "seadiveco750"]) 5001] in
  walks_started s = 2 /\
  replies s = [Success 1 [sample_operator "seadiveco250"] false;
               Success 1 [sample_operator "seadiveco750"] false] /\
  cachedOperators (cache s) = Some [sample_operator "seadiveco750"].
Proof. vm_compute. repeat split. Qed.

(* ===================================================================== *)
(** ** Numbers: properties *)
(* ===================================================================== *)

(** *** Rounding to binary64

    The primitive operations are specified by [SF64mul] and [SF64add], which
    round an exact mantissa and exponent with [binary_round_aux]. *)

Section Rounding.
#[local] Open Scope Z_scope.

(** [iter_pos] is plain iteration. *)
Lemma iter_pos_nat {A} (f : A -> A) (p : positive) (x : A) :
  iter_pos f p x = Nat.iter (Pos.to_nat p) f x.
Proof.
  revert x. induction p as [p IH|p IH|]; intros x; cbn [iter_pos].
  - rewrite !IH, Pos2Nat.inj_xI.
    replace (S (2 * Pos.to_nat p)) with (Pos.to_nat p + (Pos.to_nat p + 1))%nat by lia.
    now rewrite !Nat.iter_add.
  - rewrite !IH, Pos2Nat.inj_xO.
    replace (2 * Pos.to_nat p)%nat with (Pos.to_nat p + Pos.to_nat p)%nat by lia.
    now rewrite Nat.iter_add.
  - reflexivity.
Qed.

(** [n] halvings of the integer [M], started exact. *)
Lemma shr_1_iter (M : Z) (n : nat) :
  0 <= M ->
  let rec := Nat.iter n shr_1 {| shr_m := M; shr_r := false; shr_s := false |} in
  shr_m rec = M / 2 ^ Z.of_nat n /\
  (shr_r rec = true -> 2 ^ Z.of_nat n <= 2 * (M mod 2 ^ Z.of_nat n)).
Proof.
  intros HM. induction n as [|n IH].
  - cbn. split; [now rewrite Z.div_1_r | discriminate].
  - cbv zeta in *. rewrite Nat.iter_succ. destruct IH as [Hm _].
    destruct (Nat.iter n shr_1 _) as [m r s]. cbn [shr_m shr_r] in *.
    rewrite Nat2Z.inj_succ, Z.pow_succ_r by lia.
    assert (Hpos : 0 < 2 ^ Z.of_nat n) by (apply Z.pow_pos_nonneg; lia).
    assert (Hdiv : M / (2 * 2 ^ Z.of_nat n) = m / 2)
      by (rewrite Z.mul_comm, <- Z.div_div by lia; now rewrite Hm).
    assert (Hmod : M mod (2 * 2 ^ Z.of_nat n) = M mod 2 ^ Z.of_nat n + 2 ^ Z.of_nat n * (m mod 2)).
    { rewrite Z.mul_comm, Z.rem_mul_r by lia. now rewrite Hm. }
    assert (0 <= M mod 2 ^ Z.of_nat n) by (apply Z.mod_pos_bound; lia).
    assert (Hm0 : 0 <= m) by (rewrite Hm; apply Z.div_pos; lia).
    rewrite Hdiv, Hmod.
    destruct m as [|[p|p|]|p]; cbn [shr_1 shr_m shr_r]; try lia.
    + split; [reflexivity | discriminate].
    + rewrite Pos2Z.inj_xI.
      rewrite <- (Z.div_unique (2 * Z.pos p + 1) 2 (Z.pos p) 1) by lia.
      rewrite <- (Z.mod_unique (2 * Z.pos p + 1) 2 (Z.pos p) 1) by lia.
      split; [reflexivity | lia].
    + rewrite Pos2Z.inj_xO.
      rewrite <- (Z.div_unique (2 * Z.pos p) 2 (Z.pos p) 0) by lia.
      split; [reflexivity | discriminate].
    + split; [reflexivity|]. intros _. change (1 mod 2) with 1. lia.
Qed.

(** [shr] on an exact mantissa: the exponent grows by the shift, the mantissa
    is divided, and the round bit is set only from half of the lost part on. *)
Lemma shr_exact (M e n : Z) :
  0 <= M ->
  let k := Z.max 0 n in
  let res := shr {| shr_m := M; shr_r := false; shr_s := false |} e n in
  snd res = e + k /\
  shr_m (fst res) = M / 2 ^ k /\
  (shr_r (fst res) = true -> 2 ^ k <= 2 * (M mod 2 ^ k)).
Proof.
  intros HM. cbv zeta. destruct n as [|p|p]; cbn [shr fst snd].
  - change (Z.max 0 0) with 0. rewrite Z.add_0_r, Z.div_1_r. cbn. repeat split; discriminate.
  - rewrite iter_pos_nat. replace (Z.max 0 (Z.pos p)) with (Z.of_nat (Pos.to_nat p)) by lia.
    split; [lia|]. apply (shr_1_iter M (Pos.to_nat p) HM).
  - change (Z.max 0 (Z.neg p)) with 0. rewrite Z.add_0_r, Z.div_1_r. cbn. repeat split; discriminate.
Qed.

(** [digits2_pos] counts the binary digits. *)
Lemma pow2_double (d : Z) : 1 <= d -> 2 ^ d = 2 * 2 ^ (d - 1).
Proof. intros Hd. rewrite <- Z.pow_succ_r by lia. f_equal. lia. Qed.

Lemma digits2_pos_bounds (p : positive) :
  2 ^ (Z.pos (digits2_pos p) - 1) <= Z.pos p < 2 ^ Z.pos (digits2_pos p).
Proof.
  induction p as [p IH|p IH|]; cbn [digits2_pos].
  - rewrite Pos2Z.inj_succ. change (Z.pos p~1) with (2 * Z.pos p + 1).
    rewrite (pow2_double (Z.succ _)) by lia.
    replace (Z.succ (Z.pos (digits2_pos p)) - 1) with (Z.pos (digits2_pos p)) by lia.
    rewrite (pow2_double (Z.pos _)) in * by lia.
    revert IH. generalize (2 ^ (Z.pos (digits2_pos p) - 1)). lia.
  - rewrite Pos2Z.inj_succ. change (Z.pos p~0) with (2 * Z.pos p).
    rewrite (pow2_double (Z.succ _)) by lia.
    replace (Z.succ (Z.pos (digits2_pos p)) - 1) with (Z.pos (digits2_pos p)) by lia.
    rewrite (pow2_double (Z.pos _)) in * by lia.
    revert IH. generalize (2 ^ (Z.pos (digits2_pos p) - 1)). lia.
  - cbn. lia.
Qed.

(** The shape of a rounding of the exact positive value [P * 2^ex]. *)
Lemma binary_round_aux_exact (P : positive) (ex : Z) :
  let n := Z.max 0 (fexp prec emax (Zdigits2 (Z.pos P) + ex) - ex) in
  let m' := Z.pos P / 2 ^ n in
  exists m1,
    (m1 = m' \/ (m1 = m' + 1 /\ 2 ^ n <= 2 * (Z.pos P mod 2 ^ n))) /\
    let n2 := Z.max 0 (fexp prec emax (Zdigits2 m1 + (ex + n)) - (ex + n)) in
    binary_round_aux prec emax false (Z.pos P) ex loc_Exact =
    match m1 / 2 ^ n2 with
    | 0 => S754_zero false
    | Z.pos m =>
        if ex + n + n2 <=? emax - prec then S754_finite false m (ex + n + n2)
        else S754_infinity false
    | Z.neg _ => S754_nan
    end.
Proof.
  cbv zeta. unfold binary_round_aux, shr_fexp. cbn [shr_record_of_loc].
  destruct (shr_exact (Z.pos P) ex (fexp prec emax (Zdigits2 (Z.pos P) + ex) - ex))
    as (He & Hm & Hr); [lia|].
  destruct (shr _ ex _) as [rec1 e1]. cbn [fst snd] in He, Hm, Hr. subst e1.
  set (n := Z.max 0 (fexp prec emax (Zdigits2 (Z.pos P) + ex) - ex)) in *.
  set (m1 := round_nearest_even (shr_m rec1) (loc_of_shr_record rec1)).
  assert (Hm1 : m1 = Z.pos P / 2 ^ n \/
                (m1 = Z.pos P / 2 ^ n + 1 /\ 2 ^ n <= 2 * (Z.pos P mod 2 ^ n))).
  { unfold m1. destruct rec1 as [m r s]. cbn [shr_m shr_r loc_of_shr_record] in *.
    destruct r, s; cbn [round_nearest_even]; try (left; exact Hm).
    - right. split; [lia | auto].
    - destruct (Z.even m); [left; exact Hm | right; split; [lia | auto]]. }
  exists m1. split; [exact Hm1|].
  assert (Hm1pos : 0 <= m1).
  { assert (0 <= Z.pos P / 2 ^ n) by (apply Z.div_pos; [lia | apply Z.pow_pos_nonneg; lia]).
    lia. }
  destruct (shr_exact m1 (ex + n) (fexp prec emax (Zdigits2 m1 + (ex + n)) - (ex + n)) Hm1pos)
    as (He2 & Hm2 & _).
  destruct (shr _ (ex + n) _) as [rec2 e2]. cbn [fst snd] in He2, Hm2. subst e2.
  rewrite Hm2. reflexivity.
Qed.

Lemma Zdigits2_le (m e : Z) : 0 <= m -> m < 2 ^ e -> 0 <= e -> Zdigits2 m <= e.
Proof.
  intros Hm Hlt He. destruct m as [|p|p]; cbn [Zdigits2]; [assumption| |lia].
  pose proof (digits2_pos_bounds p) as [Hlo _].
  assert (2 ^ (Z.pos (digits2_pos p) - 1) < 2 ^ e) by lia.
  apply Z.pow_lt_mono_r_iff in H; lia.
Qed.

Lemma fexp_eq (e : Z) : fexp prec emax e = Z.max (e - 53) (-1074).
Proof. reflexivity. Qed.

(** Rounding the product of a float below 1 with the float 0.8 gives zero or
    a positive float that is at most 0.8. *)
Lemma mul_08_at_most_08 (mr : positive) (er : Z) :
  Z.pos mr < 2 ^ 53 -> er <= -53 ->
  let p := binary_round_aux prec emax false (Z.pos mr * M08) (er + -53) loc_Exact in
  p = S754_zero false \/
  exists mp ep, p = S754_finite false mp ep /\ ep <= -53 /\ Z.pos mp <= M08 * 2 ^ (-53 - ep).
Proof.
  intros Hmr Her. cbv zeta.
  change (Z.pos mr * M08) with (Z.pos (mr * 7205759403792794)).
  set (P := (mr * 7205759403792794)%positive).
  assert (HP : Z.pos P = Z.pos mr * M08) by reflexivity.
  destruct (binary_round_aux_exact P (er + -53)) as (m1 & Hm1 & Hres).
  cbv zeta in Hres. rewrite Hres. clear Hres.
  set (ex := er + -53) in *.
  set (n := Z.max 0 (fexp prec emax (Zdigits2 (Z.pos P) + ex) - ex)) in *.
  assert (Hn0 : 0 <= n) by lia.
  (* the product is below 0.8, hence below 1 *)
  assert (Hmr' : Z.pos mr < 2 ^ (- er)).
  { apply Z.lt_le_trans with (1 := Hmr). apply Z.pow_le_mono_r; lia. }
  assert (HPlt : Z.pos P < M08 * 2 ^ (- er)).
  { rewrite HP, (Z.mul_comm (Z.pos mr)). apply Z.mul_lt_mono_pos_l; [reflexivity | assumption]. }
  assert (HdP : Zdigits2 (Z.pos P) + ex <= 0).
  { assert (Zdigits2 (Z.pos P) <= - ex); [|lia].
    apply Zdigits2_le; [lia| |lia].
    replace (- ex) with (53 + - er) by lia. rewrite Z.pow_add_r by lia.
    apply Z.lt_trans with (1 := HPlt). apply Z.mul_lt_mono_pos_r; [|reflexivity].
    apply Z.pow_pos_nonneg; lia. }
  set (e1 := ex + n) in *.
  assert (He1 : e1 <= -53) by (unfold e1, n; rewrite fexp_eq; lia).
  assert (Hsplit : 2 ^ (- er) = 2 ^ n * 2 ^ (-53 - e1)).
  { rewrite <- Z.pow_add_r by lia. f_equal. lia. }
  assert (Hpn : 0 < 2 ^ n) by (apply Z.pow_pos_nonneg; lia).
  assert (Hm' : Z.pos P / 2 ^ n < M08 * 2 ^ (-53 - e1)).
  { apply Z.div_lt_upper_bound; [assumption|]. rewrite Hsplit in HPlt. lia. }
  assert (Hm'0 : 0 <= Z.pos P / 2 ^ n) by (apply Z.div_pos; lia).
  assert (Hm1b : 0 <= m1 <= M08 * 2 ^ (-53 - e1)) by lia.
  clear Hm1 Hm' Hm'0 HPlt Hsplit.
  set (n2 := Z.max 0 (fexp prec emax (Zdigits2 m1 + e1) - e1)).
  assert (Hd1 : Zdigits2 m1 + e1 <= 0).
  { assert (Zdigits2 m1 <= - e1); [|lia].
    apply Zdigits2_le; [lia| |lia].
    replace (- e1) with (53 + (-53 - e1)) by lia. rewrite Z.pow_add_r by lia.
    assert (0 < 2 ^ (-53 - e1)) by (apply Z.pow_pos_nonneg; lia).
    unfold M08 in Hm1b. nia. }
  assert (Hn2 : 0 <= n2) by lia.
  assert (He2 : e1 + n2 <= -53) by (unfold n2; rewrite fexp_eq; lia).
  assert (Hsplit2 : 2 ^ (-53 - e1) = 2 ^ n2 * 2 ^ (-53 - (e1 + n2))).
  { rewrite <- Z.pow_add_r by lia. f_equal. lia. }
  assert (Hpn2 : 0 < 2 ^ n2) by (apply Z.pow_pos_nonneg; lia).
  assert (Hm2 : 0 <= m1 / 2 ^ n2 <= M08 * 2 ^ (-53 - (e1 + n2))).
  { split; [apply Z.div_pos; lia|].
    apply Z.div_le_upper_bound; [assumption|]. rewrite Hsplit2 in Hm1b. lia. }
  destruct (m1 / 2 ^ n2) as [|m2|m2]; [now left | | lia].
  right. exists m2, (e1 + n2).
  destruct (Z.leb_spec (e1 + n2) (emax - prec)) as [_|Hbad];
    [|change (emax - prec) with 971 in Hbad; lia].
  split; [reflexivity|]. split; [assumption | apply Hm2].
Qed.

(** Aligning a mantissa to a smaller exponent multiplies it by a power of 2. *)
Lemma pos_iter_xO (m d : positive) : Z.pos (Pos.iter xO m d) = Z.pos m * 2 ^ Z.pos d.
Proof.
  induction d as [|d IH] using Pos.peano_ind.
  - cbn [Pos.iter]. change (2 ^ 1) with 2. lia.
  - rewrite Pos.iter_succ, Pos2Z.inj_succ, Z.pow_succ_r by lia.
    change (Z.pos (Pos.iter xO m d)~0) with (2 * Z.pos (Pos.iter xO m d)). lia.
Qed.

Lemma shl_align_down (mx : positive) (ex ex' : Z) :
  ex' <= ex -> Z.pos (fst (shl_align mx ex ex')) = Z.pos mx * 2 ^ (ex - ex').
Proof.
  intros Hle. unfold shl_align.
  destruct (ex' - ex) as [|d|d] eqn:Hd; cbn [fst]; [|lia|].
  - replace (ex - ex') with 0 by lia. lia.
  - rewrite pos_iter_xO. f_equal. f_equal. lia.
Qed.

Lemma shl_align_up (mx : positive) (ex ex' : Z) :
  ex <= ex' -> shl_align mx ex ex' = (mx, ex).
Proof. intros Hle. unfold shl_align. destruct (ex' - ex) eqn:Hd; [reflexivity..|lia]. Qed.

Lemma Zdigits2_eq (m e : Z) : 0 <= e -> 2 ^ e <= m < 2 ^ (e + 1) -> Zdigits2 m = e + 1.
Proof.
  intros He [Hlo Hhi].
  assert (0 < 2 ^ e) by (apply Z.pow_pos_nonneg; lia).
  destruct m as [|p|p]; try lia. cbn [Zdigits2].
  pose proof (digits2_pos_bounds p) as [Hdlo Hdhi].
  assert (H1 : 2 ^ (Z.pos (digits2_pos p) - 1) < 2 ^ (e + 1)) by lia.
  assert (H2 : 2 ^ e < 2 ^ Z.pos (digits2_pos p)) by lia.
  apply Z.pow_lt_mono_r_iff in H1; [|lia|lia].
  apply Z.pow_lt_mono_r_iff in H2; lia.
Qed.

(** Adding to the float 4.2 a positive float that is at most 0.8 gives a
    float between 4.2 and 5. *)
Lemma add_42_in_range (mp : positive) (ep : Z) :
  ep <= -53 -> Z.pos mp <= M08 * 2 ^ (-53 - ep) ->
  exists m,
    SFadd prec emax (S754_finite false 4728779608739021 (-50)) (S754_finite false mp ep)
    = S754_finite false m (-50) /\
    M42 <= Z.pos m <= 5 * 2 ^ 50.
Proof.
  intros Hep Hmp. cbn [SFadd cond_Zopp].
  rewrite Z.min_r by lia.
  rewrite (shl_align_down 4728779608739021 (-50) ep) by lia.
  rewrite (shl_align_up mp ep ep) by lia. cbn [fst].
  set (d := -50 - ep) in *.
  assert (Hd : 3 <= d) by lia.
  replace (-53 - ep) with (d - 3) in Hmp by lia.
  assert (Hpd : 2 ^ d = 8 * 2 ^ (d - 3)).
  { change 8 with (2 ^ 3). rewrite <- Z.pow_add_r by lia. f_equal. lia. }
  assert (Hp3 : 0 < 2 ^ (d - 3)) by (apply Z.pow_pos_nonneg; lia).
  set (total := 4728779608739021 * 2 ^ d + Z.pos mp).
  assert (HSlo : 2 ^ 52 * 2 ^ d <= total) by (unfold total; lia).
  assert (HShi : total < 2 ^ 53 * 2 ^ d) by (unfold total, M08 in *; lia).
  assert (HSdig : Zdigits2 total = 53 + d).
  { replace (53 + d) with (52 + d + 1) by lia. apply Zdigits2_eq; [lia|].
    replace (52 + d + 1) with (53 + d) by lia. rewrite !Z.pow_add_r by lia. lia. }
  destruct total as [|s|s] eqn:HS; [lia | | lia].
  cbn [binary_normalize]. unfold binary_round.
  change (Z.pos (digits2_pos s)) with (Zdigits2 (Z.pos s)). rewrite HSdig.
  replace (fexp prec emax (53 + d + ep)) with (-50) by (rewrite fexp_eq; lia).
  rewrite shl_align_up by lia.
  destruct (binary_round_aux_exact s ep) as (m1 & Hm1 & Hres).
  cbv zeta in Hres. rewrite Hres. clear Hres.
  rewrite HSdig in *.
  replace (fexp prec emax (53 + d + ep)) with (-50) in * by (rewrite fexp_eq; lia).
  replace (Z.max 0 (-50 - ep)) with d in * by lia.
  replace (ep + d) with (-50) in * by lia.
  (* the mantissa before rounding *)
  assert (Hdiv : Z.pos s / 2 ^ d = M42 + Z.pos mp / 2 ^ d).
  { rewrite <- HS. unfold total. rewrite Z.div_add_l by lia. reflexivity. }
  assert (Hmod : Z.pos s mod 2 ^ d = Z.pos mp mod 2 ^ d).
  { rewrite <- HS. unfold total. rewrite Z.add_comm, Z.mod_add by lia. reflexivity. }
  rewrite Hdiv, Hmod in Hm1.
  pose proof (Z.div_mod (Z.pos mp) (2 ^ d) ltac:(lia)) as Hdm.
  pose proof (Z.mod_pos_bound (Z.pos mp) (2 ^ d) ltac:(lia)) as Hmb.
  assert (Hq0 : 0 <= Z.pos mp / 2 ^ d) by (apply Z.div_pos; lia).
  assert (Hm1b : M42 <= m1 <= 5 * 2 ^ 50).
  { unfold M08, M42 in *. change (5 * 2 ^ 50) with 5629499534213120.
    revert Hm1 Hdm Hmb Hq0 Hmp Hpd Hp3.
    generalize (Z.pos mp / 2 ^ d) (Z.pos mp mod 2 ^ d) (2 ^ (d - 3)) (2 ^ d).
    intros q r x y. nia. }
  assert (Hm1dig : Zdigits2 m1 = 53).
  { apply (Zdigits2_eq m1 52); [lia|]. unfold M42 in Hm1b.
    change (2 ^ 52) with 4503599627370496. change (2 ^ (52 + 1)) with 9007199254740992.
    change (5 * 2 ^ 50) with 5629499534213120 in Hm1b. lia. }
  rewrite Hm1dig. change (Z.max 0 (fexp prec emax (53 + -50) - -50)) with 0.
  change (2 ^ 0) with 1. rewrite Z.div_1_r.
  destruct m1 as [|m|m]; [unfold M42 in Hm1b; lia | | unfold M42 in Hm1b; lia].
  exists m. split; [reflexivity | assumption].
Qed.

End Rounding.

(** *** The floats of [generateRating] *)

(** The constants of the code as sign, mantissa and exponent. *)
Lemma prim_zero : Prim2SF 0 = S754_zero false.
Proof. vm_compute. reflexivity. Qed.

Lemma prim_one : Prim2SF 1 = S754_finite false 4503599627370496 (-52).
Proof. vm_compute. reflexivity. Qed.

Lemma prim_42 : Prim2SF 4.2 = S754_finite false 4728779608739021 (-50).
Proof. vm_compute. reflexivity. Qed.

Lemma prim_08 : Prim2SF 0.8 = S754_finite false 7205759403792794 (-53).
Proof. vm_compute. reflexivity. Qed.

(** A positive float below 1 has an exponent of at most -53. *)
Lemma SFltb_one (mr : positive) (er : Z) :
  SFltb (S754_finite false mr er) (S754_finite false 4503599627370496 (-52)) = true ->
  (er <= -53)%Z \/ (er = -52 /\ Z.pos mr < 4503599627370496)%Z.
Proof.
  intros Hlt.
  unfold SFltb, SFcompare in Hlt.
  destruct (Z.compare_spec er (-52)) as [Heq|Hlt52|Hgt]; [|left; lia|discriminate].
  right. split; [assumption|].
  change (Pos.compare_cont Eq mr 4503599627370496 = Lt).
  destruct (Pos.compare_cont Eq mr 4503599627370496);
    [discriminate Hlt | reflexivity | discriminate Hlt].
Qed.

Lemma below_one (mr : positive) (er : Z) :
  bounded prec emax mr er = true ->
  SFltb (S754_finite false mr er) (S754_finite false 4503599627370496 (-52)) = true ->
  (Z.pos mr < 2 ^ 53)%Z /\ (er <= -53)%Z.
Proof.
  intros Hvalid Hlt.
  unfold bounded, canonical_mantissa in Hvalid.
  apply andb_prop in Hvalid. destruct Hvalid as [Hcanon _].
  apply Z.eqb_eq in Hcanon. rewrite fexp_eq in Hcanon.
  pose proof (digits2_pos_bounds mr) as [Hlo Hhi].
  assert (Hdig : (Z.pos (digits2_pos mr) <= 53)%Z) by lia.
  split.
  - apply Z.lt_le_trans with (1 := Hhi). apply Z.pow_le_mono_r; lia.
  - destruct (SFltb_one mr er Hlt) as [Hok | [Heq Hsmall]]; [assumption|].
    subst er. assert (Hd : (Z.pos (digits2_pos mr) = 53)%Z) by lia.
    rewrite Hd in Hlo. change (2 ^ (53 - 1))%Z with 4503599627370496%Z in Hlo.
    clear - Hlo Hsmall. lia.
Qed.

(** A value of [Math.random()] is a zero or a positive float below 1. *)
Lemma unit_interval_cases (r : float) :
  unit_interval r = true ->
  (exists s, Prim2SF r = S754_zero s) \/
  (exists mr er, Prim2SF r = S754_finite false mr er /\ (Z.pos mr < 2 ^ 53)%Z /\ (er <= -53)%Z).
Proof.
  unfold unit_interval. intros [Hge Hlt]%andb_prop.
  rewrite leb_spec, prim_zero in Hge. rewrite ltb_spec, prim_one in Hlt.
  pose proof (Prim2SF_valid r) as Hvalid.
  destruct (Prim2SF r) as [s|s| |s mr er].
  - left. now exists s.
  - destruct s; discriminate.
  - discriminate.
  - right. destruct s; [discriminate|]. exists mr, er. split; [reflexivity|].
    now apply below_one.
Qed.

(** The float whose text is the rating lies between the floats 4.2 and 5. *)
Lemma rating_float (r : float) :
  unit_interval r = true ->
  exists m, Prim2SF (4.2 + r * 0.8)%float = S754_finite false m (-50) /\
            (M42 <= Z.pos m <= 5 * 2 ^ 50)%Z.
Proof.
  intros Hr. rewrite add_spec, mul_spec, prim_42, prim_08.
  destruct (unit_interval_cases r Hr) as [[s ->] | (mr & er & -> & Hmr & Her)].
  - exists 4728779608739021%positive. split; [reflexivity | unfold M42; cbn; lia].
  - unfold SF64mul. cbn [SFmul xorb].
    change (Z.pos (mr * 7205759403792794)) with (Z.pos mr * M08)%Z.
    destruct (mul_08_at_most_08 mr er Hmr Her) as [Hz | (mp & ep & Hp & Hep & Hmp)];
      cbv zeta in *.
    + rewrite Hz.
      exists 4728779608739021%positive. split; [reflexivity | unfold M42; cbn; lia].
    + rewrite Hp. apply add_42_in_range; assumption.
Qed.

(** Between 4.2 and 5 the nearest number of tenths is 42 to 50. *)
Lemma nearest_tenths_range (m : positive) :
  (M42 <= Z.pos m <= 5 * 2 ^ 50)%Z -> (42 <= nearest_tenths m (-50) <= 50)%Z.
Proof.
  intros [Hlo Hhi]. unfold nearest_tenths, M42 in *.
  change (0 <=? -50)%Z with false. cbv iota.
  change (2 ^ (- -50))%Z with 1125899906842624%Z.
  change (2 ^ (1 - -50))%Z with 2251799813685248%Z.
  change (5 * 2 ^ 50)%Z with 5629499534213120%Z in Hhi.
  split.
  - apply Z.div_le_lower_bound; lia.
  - assert ((20 * Z.pos m + 1125899906842624) / 2251799813685248 < 51)%Z; [|lia].
    apply Z.div_lt_upper_bound; lia.
Qed.

(** The text of a rating is one of nine. *)
Lemma rating_values (r : float) : unit_interval r = true -> In (generateRating r) ratings.
Proof.
  intros Hr. unfold generateRating, toFixed1.
  destruct (rating_float r Hr) as (m & -> & Hm).
  pose proof (nearest_tenths_range m Hm) as Hn.
  cbv zeta. generalize dependent (nearest_tenths m (-50)). intros n Hn.
  assert (Hcases : (n = 42 \/ n = 43 \/ n = 44 \/ n = 45 \/ n = 46 \/ n = 47 \/ n = 48
                    \/ n = 49 \/ n = 50)%Z) by lia.
  unfold ratings.
  repeat (destruct Hcases as [-> | Hcases]; [vm_compute; tauto|]).
  subst n. vm_compute. tauto.
Qed.

(** C9. Whatever value in [0, 1) the random source gives, the rating is a
    text that [parseFloat] reads as a number between 4.2 and 5.0, both
    included. *)
Theorem rating_parses_between_42_and_50 (r : float) :
  unit_interval r = true ->
  exists q, parseFloat (generateRating r) = Some q /\ (42 # 10 <= q)%Q /\ (q <= 5)%Q.
Proof.
  intros Hr. pose proof (rating_values r Hr) as Hin. unfold ratings in Hin.
  repeat (destruct Hin as [<- | Hin];
          [eexists; split; [vm_compute; reflexivity | split; vm_compute; discriminate]|]).
  destruct Hin.
Qed.

Lemma rating_parses_between_42_and_50_witness :
  exists q, parseFloat (generateRating 0.5) = Some q /\ (42 # 10 <= q)%Q /\ (q <= 5)%Q.
Proof. apply rating_parses_between_42_and_50. reflexivity. Defined.

(* ===================================================================== *)
(** ** The prototype's helpers differ from the scraper's *)
(* ===================================================================== *)

(** The prototype names its categories in lower case and finds "div". *)
Example ex_prototype_category : Prototype.categorizeOperator "Blue Dive Resort" = "diving".
Proof. reflexivity. Qed.

(** The prototype's fallback district is "Unknown". *)
Example ex_prototype_district : Prototype.extractDistrict "Mile 4, Northern Highway" = "Unknown".
Proof. reflexivity. Qed.

(** The prototype's ratings start at 4.0. *)
Example ex_prototype_rating : Prototype.generateRating 0 = "4.0".
Proof. reflexivity. Qed.

(* ===================================================================== *)
(** ** Page Extractor: further properties *)
(* ===================================================================== *)

Section ExtractorMore.
Context `{JSString}.
Variable random : nat -> float.

Lemma extractLocation_values (address : string) :
  In (extractLocation address) ("Belize" :: locations).
Proof.
  unfold extractLocation. destruct (String.eqb address ""); [now left|].
  assert (Hgen : forall locs, In (first_location address locs) ("Belize" :: locs)).
  { induction locs as [|loc rest IH]; cbn [first_location]; [now left|].
    destruct (includes _ _); [right; now left|].
    destruct IH as [<-|Hin]; [now left | right; now right]. }
  apply Hgen.
Qed.

Lemma categorizeOperator_values (name : string) :
  In (categorizeOperator name) category_values.
Proof.
  unfold categorizeOperator, category_values.
  repeat match goal with
         | |- context [if ?b then _ else _] => destruct b
         end; simpl; tauto.
Qed.

Lemma estimatePriceRange_values (name : string) :
  In (estimatePriceRange name) priceRange_values.
Proof.
  unfold estimatePriceRange, priceRange_values.
  repeat match goal with
         | |- context [if ?b then _ else _] => destruct b
         end; simpl; tauto.
Qed.

(** The name of a kept row passed the header test. *)
Lemma extractRow_kept_name (k k' : nat) (tds : Row) (o : OperatorData) :
  extractRow random k tds = (Some o, k') ->
  op_name o <> "" /\ op_name o <> "Name" /\ includes (op_name o) "Company Name" = false.
Proof.
  unfold extractRow.
  destruct (List.length tds <? 4)%nat; [discriminate|].
  destruct (String.eqb_spec (cell tds 0) "") as [|Hne]; [discriminate|]. cbn [orb].
  destruct (String.eqb_spec (cell tds 0) "Name") as [|Hnn]; [discriminate|]. cbn [orb].
  destruct (includes (cell tds 0) "Company Name") eqn:Hc; [discriminate|].
  intros [= <- _]. cbn [op_name]. auto.
Qed.

(** X1. Every record the extractor produces is classified inside the fixed
    vocabularies: its district (top-level and nested) is one of the six
    districts, its location is a gazetteer entry or "Belize", its category
    one of the seven categories, its price range one of "$", "$$", "$$$";
    and its name is not empty, not "Name", and without "Company Name". *)
Theorem extracted_record_is_classified (k : nat) (rows : list Row) (o : OperatorData) :
  In o (fst (extractOperatorsFromTable random k rows)) ->
  In (op_district o) district_values /\
  In (addr_district (op_address o)) district_values /\
  In (op_location o) ("Belize" :: locations) /\
  In (op_category o) category_values /\
  In (op_priceRange o) priceRange_values /\
  op_name o <> "" /\ op_name o <> "Name" /\ includes (op_name o) "Company Name" = false.
Proof.
  intros Hin. destruct (extracted_from_row random rows k o Hin) as (k0 & tds & _ & Hrow).
  pose proof (extractRow_kept_name _ _ _ _ Hrow) as Hname.
  destruct (extractRow_kept random _ _ _ _ Hrow) as (_ & _ & Ho).
  rewrite Ho in Hname |- *. cbn [op_district op_address addr_district op_location
                                 op_category op_priceRange op_name] in *.
  repeat split; try apply Hname.
  - apply extractDistrict_values.
  - apply extractDistrict_values.
  - apply extractLocation_values.
  - apply categorizeOperator_values.
  - apply estimatePriceRange_values.
Qed.

Lemma extract_app (k : nat) (rows1 rows2 : list Row) :
  extractOperatorsFromTable random k (rows1 ++ rows2)%list =
  ((fst (extractOperatorsFromTable random k rows1) ++
    fst (extractOperatorsFromTable random
           (snd (extractOperatorsFromTable random k rows1)) rows2))%list,
   snd (extractOperatorsFromTable random
          (snd (extractOperatorsFromTable random k rows1)) rows2)).
Proof.
  revert k. induction rows1 as [|tds rest IH]; intros k.
  - cbn. now destruct (extractOperatorsFromTable random k rows2).
  - cbn [app extractOperatorsFromTable].
    destruct (extractRow random k tds) as [o k1].
    rewrite IH.
    destruct (extractOperatorsFromTable random k1 rest) as [os1 k2]. cbn [fst snd].
    destruct (extractOperatorsFromTable random k2 rows2) as [os2 k3]. cbn [fst snd].
    now destruct o.
Qed.

Lemma extract_draws (k : nat) (rows : list Row) :
  snd (extractOperatorsFromTable random k rows)
  = k + 2 * List.length (fst (extractOperatorsFromTable random k rows)) /\
  List.length (fst (extractOperatorsFromTable random k rows)) <= List.length rows.
Proof.
  revert k. induction rows as [|tds rest IH]; intros k; cbn [extractOperatorsFromTable].
  - cbn. lia.
  - destruct (extractRow random k tds) as [o k1] eqn:Hrow.
    specialize (IH k1).
    destruct (extractOperatorsFromTable random k1 rest) as [os k2]. cbn [fst snd] in *.
    destruct o as [o|].
    + destruct (extractRow_kept random _ _ _ _ Hrow) as (-> & _ & _).
      cbn [List.length]. lia.
    + assert (k1 = k).
      { unfold extractRow in Hrow. destruct (List.length tds <? 4)%nat; [congruence|].
        destruct (_ || _ || _); congruence. }
      cbn [List.length]. lia.
Qed.

(** X2. Extraction goes row by row: the records of two runs of rows, the
    second extracted with the random draws the first left, are the records of
    the rows put one after the other. *)
Theorem extraction_of_appended_rows (k : nat) (rows1 rows2 : list Row) :
  extractOperatorsFromTable random k (rows1 ++ rows2)%list =
  let first := extractOperatorsFromTable random k rows1 in
  let second := extractOperatorsFromTable random (snd first) rows2 in
  ((fst first ++ fst second)%list, snd second).
Proof. cbv zeta. apply extract_app. Qed.

(** X3. Each record costs exactly two random draws (one for its id, one for
    its rating) and dropped rows cost none; a page never gives more records
    than it has rows. *)
Theorem extraction_draws_and_count (k : nat) (rows : list Row) :
  snd (extractOperatorsFromTable random k rows)
  = k + 2 * List.length (fst (extractOperatorsFromTable random k rows)) /\
  List.length (fst (extractOperatorsFromTable random k rows)) <= List.length rows.
Proof. apply extract_draws. Qed.

End ExtractorMore.

Lemma extracted_record_is_classified_witness :
  In (op_category (sample_operator "seadiveco500")) category_values /\
  In (op_location (sample_operator "seadiveco500")) ("Belize" :: locations).
Proof.
  destruct (extracted_record_is_classified half 0 [sample_row] (sample_operator "seadiveco500"))
    as (_ & _ & Hl & Hc & _).
  - vm_compute. left. reflexivity.
  - split; assumption.
Defined.

(* ===================================================================== *)
(** ** The postback instruction: further properties *)
(* ===================================================================== *)

Lemma string_app_assoc (a b c : string) : (a ++ b) ++ c = a ++ b ++ c.
Proof. induction a as [|x a IH]; cbn; [reflexivity | now rewrite IH]. Qed.

Lemma strip_prefix_sound (p s rest : string) :
  strip_prefix p s = Some rest -> s = p ++ rest.
Proof.
  revert s. induction p as [|a p IH]; intros s; cbn [strip_prefix].
  - now intros [= ->].
  - destruct s as [|b s]; [discriminate|].
    destruct (Ascii.eqb_spec a b) as [->|]; [|discriminate].
    intros Hs. cbn. now rewrite (IH _ Hs).
Qed.

Lemma span_not_quote_sound (s a b : string) :
  span_not_quote s = (a, b) ->
  s = a ++ b /\ no_quote a = true /\ (b = "" \/ exists b', b = String quote b').
Proof.
  revert a b. induction s as [|c s IH]; intros a b; cbn [span_not_quote].
  - intros [= <- <-]. auto.
  - destruct (Ascii.eqb_spec c quote) as [->|Hc].
    + intros [= <- <-]. cbn. split; [reflexivity|]. split; [reflexivity|]. right. now exists s.
    + destruct (span_not_quote s) as [a0 b0]. intros [= <- <-].
      destruct (IH a0 b0 eq_refl) as (-> & Ha & Hb).
      split; [reflexivity|]. split; [|exact Hb].
      cbn. rewrite Ha. apply Ascii.eqb_neq in Hc. now rewrite Hc.
Qed.

Lemma prefix_sound (p s : string) : prefix p s = true -> exists rest, s = p ++ rest.
Proof.
  revert s. induction p as [|a p IH]; intros s; cbn [prefix].
  - intros _. now exists s.
  - destruct s as [|b s]; [discriminate|]. cbn [prefix].
    destruct (ascii_dec a b) as [->|]; [|discriminate].
    intros Hp. destruct (IH _ Hp) as [rest ->]. now exists rest.
Qed.

(** What a match at the head of the text tells. *)
Lemma match_here_sound (s target argument : string) :
  match_here s = Some (target, argument) ->
  no_quote target = true /\ target <> "" /\
  no_quote argument = true /\ argument <> "" /\
  exists rest, s = "__doPostBack('" ++ target ++ "','" ++ argument ++ "')" ++ rest.
Proof.
  unfold match_here.
  destruct (strip_prefix "__doPostBack('" s) as [s1|] eqn:H1; [|discriminate].
  destruct (span_not_quote s1) as [t s2] eqn:H2.
  destruct (String.eqb_spec t "") as [|Ht]; [discriminate|].
  destruct (strip_prefix "','" s2) as [s3|] eqn:H3; [|discriminate].
  destruct (span_not_quote s3) as [a s4] eqn:H4.
  destruct (String.eqb_spec a "") as [|Ha]; [discriminate|].
  destruct (prefix "')" s4) eqn:H5; [|discriminate].
  intros [= <- <-].
  apply strip_prefix_sound in H1, H3.
  destruct (span_not_quote_sound _ _ _ H2) as (-> & Hqt & _).
  destruct (span_not_quote_sound _ _ _ H4) as (-> & Hqa & _).
  destruct (prefix_sound _ _ H5) as [rest ->].
  repeat split; try assumption.
  exists rest. subst s s2. reflexivity.
Qed.

(** X4. What the expression captures is really there: when an href matches,
    both groups are non-empty and free of quotes, and the href contains
    [__doPostBack('target','argument')] with exactly these groups. *)
Theorem doPostBack_match_sound (href target argument : string) :
  doPostBack_match href = Some (target, argument) ->
  no_quote target = true /\ target <> "" /\
  no_quote argument = true /\ argument <> "" /\
  includes href ("__doPostBack('" ++ target ++ "','" ++ argument ++ "')") = true.
Proof.
  induction href as [|c href IH]; cbn [doPostBack_match].
  - destruct (match_here "") as [g|] eqn:Hm; [|discriminate].
    intros [= ->]. destruct (match_here_sound _ _ _ Hm) as (_ & _ & _ & _ & rest & Habs).
    cbn in Habs. discriminate Habs.
  - destruct (match_here (String c href)) as [g|] eqn:Hm.
    + intros [= ->]. destruct (match_here_sound _ _ _ Hm) as (Ht & Hte & Ha & Hae & rest & Hs).
      repeat split; try assumption.
      apply includes_prefix. rewrite Hs.
      replace ("__doPostBack('" ++ target ++ "','" ++ argument ++ "')" ++ rest)
        with (("__doPostBack('" ++ target ++ "','" ++ argument ++ "')") ++ rest)
        by (now rewrite !string_app_assoc).
      apply prefix_app.
    + intros Hrest. destruct (IH Hrest) as (Ht & Hte & Ha & Hae & Hinc).
      repeat split; try assumption. now apply includes_skip.
Qed.

(** X5. Reading back what was written: after any text without an underscore
    (such as [javascript:]), the instruction [__doPostBack('t','a')] with
    non-empty, quote-free [t] and [a] is matched with groups [t] and [a],
    whatever follows it. *)
Theorem doPostBack_match_reads_back (before target argument after : string) :
  lacks "_" before = true ->
  no_quote target = true -> target <> "" ->
  no_quote argument = true -> argument <> "" ->
  doPostBack_match (before ++ "__doPostBack('" ++ target ++ "','" ++ argument ++ "')" ++ after)
  = Some (target, argument).
Proof.
  intros Hb Ht Hte Ha Hae.
  induction before as [|c before IH].
  - apply doPostBack_match_here. apply match_here_postback; try assumption.
    + now apply String.eqb_neq.
    + now apply String.eqb_neq.
  - cbn [lacks] in Hb. apply andb_prop in Hb. destruct Hb as [Hc Hb].
    cbn [append]. rewrite doPostBack_match_skip; [now apply IH|].
    unfold match_here. cbn [strip_prefix].
    apply negb_true_iff in Hc. rewrite Ascii.eqb_sym in Hc.
    now rewrite Hc.
Qed.

Lemma doPostBack_match_sound_witness :
  includes "javascript:__doPostBack('ctl00$Main$GridView1','Page$2')"
           ("__doPostBack('" ++ "ctl00$Main$GridView1" ++ "','" ++ "Page$2" ++ "')") = true.
Proof.
  apply (doPostBack_match_sound "javascript:__doPostBack('ctl00$Main$GridView1','Page$2')"
           "ctl00$Main$GridView1" "Page$2").
  reflexivity.
Defined.

Lemma doPostBack_match_reads_back_witness :
  doPostBack_match ("javascript:" ++ "__doPostBack('" ++ "grid" ++ "','" ++ "Page$7" ++ "')" ++ ";")
  = Some ("grid", "Page$7").
Proof.
  apply doPostBack_match_reads_back; try reflexivity; discriminate.
Defined.

(* ===================================================================== *)
(** ** The form of a postback: properties *)
(* ===================================================================== *)

Lemma own_property_set_same (fd : FormData) (key : string) (v : option string) :
  own_property (set_property fd key v) key = Some v.
Proof.
  induction fd as [|[k x] fd IH]; cbn [set_property own_property].
  - now rewrite String.eqb_refl.
  - destruct (String.eqb_spec k key) as [->|Hk]; cbn [own_property].
    + now rewrite String.eqb_refl.
    + apply String.eqb_neq in Hk. now rewrite Hk.
Qed.

Lemma own_property_set_other (fd : FormData) (key other : string) (v : option string) :
  other <> key -> own_property (set_property fd key v) other = own_property fd other.
Proof.
  intros Hne. induction fd as [|[k x] fd IH]; cbn [set_property own_property].
  - destruct (String.eqb_spec key other); [congruence | reflexivity].
  - destruct (String.eqb_spec k key) as [->|Hk]; cbn [own_property].
    + destruct (String.eqb_spec key other); [congruence | reflexivity].
    + destruct (String.eqb k other); [reflexivity | exact IH].
Qed.

(** A field that holds a non-empty value is out of reach of the inputs, and so
    are the two names the callback excludes. *)
Lemma add_input_keeps (fd : FormData) (input : option string * option string)
      (key : string) (v : option string) :
  own_property fd key = Some v ->
  (exists text, v = Some text /\ text <> "") \/ key = "__VIEWSTATE" \/ key = "__EVENTVALIDATION" ->
  own_property (add_input fd input) key = Some v.
Proof.
  intros Hown Hsafe. destruct input as [[name|] val]; cbn [add_input]; [|assumption].
  destruct (String.eqb_spec name key) as [->|Hne].
  - unfold truthy_at. rewrite Hown.
    destruct Hsafe as [(text & -> & Htext) | [-> | ->]].
    + apply String.eqb_neq in Htext. rewrite Htext. cbn. now rewrite andb_false_r.
    + cbn. rewrite andb_false_r. cbn. assumption.
    + cbn. rewrite andb_false_r. assumption.
  - destruct (_ && _ && _ && _); [|assumption].
    rewrite own_property_set_other by congruence. assumption.
Qed.

Lemma add_inputs_keep (inputs : list (option string * option string)) :
  forall (fd : FormData) (key : string) (v : option string),
  own_property fd key = Some v ->
  (exists text, v = Some text /\ text <> "") \/ key = "__VIEWSTATE" \/ key = "__EVENTVALIDATION" ->
  own_property (fold_left add_input inputs fd) key = Some v.
Proof.
  induction inputs as [|input rest IH]; intros fd key v Hown Hsafe; cbn [fold_left];
    [assumption|].
  apply IH; [|assumption]. now apply add_input_keeps.
Qed.

(** Which names one input leaves in the form. *)
Lemma add_input_names (fd : FormData) (input : option string * option string)
      (name : string) :
  own_property (add_input fd input) name <> None <->
  own_property fd name <> None \/ (addable name = true /\ exists val, input = (Some name, val)).
Proof.
  destruct input as [[n|] val]; cbn [add_input].
  - destruct (String.eqb_spec n name) as [->|Hne].
    + unfold truthy_at, addable.
      destruct (own_property fd name) as [v|] eqn:Hown.
      * split; [intros _; left; discriminate|]. intros _.
        destruct (_ && _ && _ && _); [rewrite own_property_set_same | rewrite Hown];
          discriminate.
      * change (negb (String.eqb name "")
                && negb (existsb (String.eqb name) object_prototype_keys)
                && negb (String.eqb name "__VIEWSTATE")
                && negb (String.eqb name "__EVENTVALIDATION")) with (addable name).
        destruct (addable name).
        { rewrite own_property_set_same. split; [|discriminate].
          intros _. right. split; [reflexivity | now exists val]. }
        { rewrite Hown. split; [tauto|].
          intros [Hl | [Hf _]]; [assumption | discriminate]. }
    + assert (Hsame : own_property
                (if negb (String.eqb n "") && negb (truthy_at fd n)
                    && negb (String.eqb n "__VIEWSTATE")
                    && negb (String.eqb n "__EVENTVALIDATION")
                 then set_property fd n val else fd) name = own_property fd name)
        by (destruct (_ && _ && _ && _);
            [apply own_property_set_other; congruence | reflexivity]).
      rewrite Hsame. split; [tauto|].
      intros [Hl | [_ [v Hv]]]; [assumption|]. congruence.
  - split; [tauto|]. intros [Hl | [_ [v Hv]]]; [assumption | discriminate].
Qed.

Lemma add_inputs_names (inputs : list (option string * option string)) (name : string) :
  forall fd,
  own_property (fold_left add_input inputs fd) name <> None <->
  own_property fd name <> None \/
  (addable name = true /\ exists val, In (Some name, val) inputs).
Proof.
  induction inputs as [|input rest IH]; intros fd; cbn [fold_left In].
  - split; [tauto|]. intros [Hl | [_ [v []]]]. assumption.
  - rewrite IH, add_input_names. split.
    + intros [[Hl | [Ha [v ->]]] | [Ha [v Hv]]]; [now left | |].
      * right. split; [assumption|]. exists v. now left.
      * right. split; [assumption|]. exists v. now right.
    + intros [Hl | [Ha [v [-> | Hv]]]]; [now left; left | |].
      * left. right. split; [assumption | now exists v].
      * right. split; [assumption | now exists v].
Qed.

(** X6. The names the form holds are exactly the five ASP.NET fields and
    the names of the inputs of the page that are not empty and not inherited
    from [Object.prototype]: an input named [constructor] or [toString] is
    never posted, every other named input is. *)
Theorem formData_holds_the_named_inputs (p : Page) (eventTarget eventArgument name : string) :
  own_property (formData_of p eventTarget eventArgument) name <> None <->
  In name aspnet_fields \/
  (name <> "" /\ existsb (String.eqb name) object_prototype_keys = false /\
   exists val, In (Some name, val) (inputs p)).
Proof.
  unfold formData_of. rewrite add_inputs_names.
  assert (Hfive : own_property
                    [("__EVENTTARGET", Some eventTarget);
                     ("__EVENTARGUMENT", Some eventArgument);
                     ("__VIEWSTATE", viewState p);
                     ("__VIEWSTATEGENERATOR", viewStateGenerator p);
                     ("__EVENTVALIDATION", eventValidation p)] name <> None
                  <-> In name aspnet_fields).
  { unfold aspnet_fields. cbn [own_property In].
    repeat match goal with
           | |- context [String.eqb ?k name] =>
               destruct (String.eqb_spec k name) as [<-|?];
               [split; [tauto | discriminate]|]
           end.
    split; [congruence | intuition congruence]. }
  rewrite Hfive. unfold addable. split.
  - intros [Hl | [Ha Hin]]; [now left|]. right.
    apply andb_prop in Ha. destruct Ha as [Ha _].
    apply andb_prop in Ha. destruct Ha as [Ha _].
    apply andb_prop in Ha. destruct Ha as [Hne Hproto].
    apply negb_true_iff in Hne, Hproto. apply String.eqb_neq in Hne. auto.
  - intros [Hl | (Hne & Hproto & Hin)]; [now left|].
    destruct (String.eqb_spec name "__VIEWSTATE") as [->|Hv];
      [left; cbn; tauto|].
    destruct (String.eqb_spec name "__EVENTVALIDATION") as [->|He];
      [left; cbn; tauto|].
    right. split; [|assumption].
    apply String.eqb_neq in Hne. now rewrite Hne, Hproto.
Qed.

(** X7. The inputs of the page cannot displace the postback itself: with a
    non-empty target and argument (as the expression captures them), the form
    carries exactly that target and argument, and its view state and event
    validation are the values read from the elements with these ids,
    whatever inputs the page has. *)
Theorem formData_keeps_the_postback (p : Page) (eventTarget eventArgument : string) :
  eventTarget <> "" -> eventArgument <> "" ->
  let fd := formData_of p eventTarget eventArgument in
  own_property fd "__EVENTTARGET" = Some (Some eventTarget) /\
  own_property fd "__EVENTARGUMENT" = Some (Some eventArgument) /\
  own_property fd "__VIEWSTATE" = Some (viewState p) /\
  own_property fd "__EVENTVALIDATION" = Some (eventValidation p).
Proof.
  intros Ht Ha. cbv zeta. unfold formData_of.
  repeat split; apply add_inputs_keep; try reflexivity.
  - left. now exists eventTarget.
  - left. now exists eventArgument.
  - right. now left.
  - right. now right.
Qed.

Lemma formData_keeps_the_postback_witness :
  own_property (formData_of (page_with_next 1) "ctl00$Main$GridView1" "Page$2") "__EVENTTARGET"
  = Some (Some "ctl00$Main$GridView1").
Proof.
  apply (formData_keeps_the_postback (page_with_next 1) "ctl00$Main$GridView1" "Page$2");
    discriminate.
Defined.

(* ===================================================================== *)
(** ** Pagination Walker: further properties *)
(* ===================================================================== *)

Lemma firstn_succ_nth_error {A} (l : list A) (i : nat) (x : A) :
  nth_error l i = Some x -> firstn (S i) l = (firstn i l ++ [x])%list.
Proof.
  revert i. induction l as [|a l IH]; intros [|i]; cbn; try discriminate.
  - now intros [= ->].
  - intros Hx. now rewrite <- (IH i Hx).
Qed.

Section WalkerMore.
Context `{JSString}.
Variable deployment : Deployment.
Variable random : nat -> float.
Variable remote : Remote.

(** What holds of the loop for every site. *)
Lemma loop_is_bounded (k : nat) (n : nat) :
  forall w posts0, pages_left w <= n ->
  1 <= pageCount w <= 15 ->
  sent w = Get :: posts0 -> Forall is_post posts0 ->
  List.length (sent w) = pageCount w ->
  draws w = k + 2 * List.length (operators w) ->
  let r := while_hasNextPage deployment random remote w in
  List.length (sent_after r) <= 16 /\
  (exists posts, sent_after r = Get :: posts /\ Forall is_post posts) /\
  (forall ops, settled r = Fulfilled ops -> draws_after r = k + 2 * List.length ops).
Proof.
  induction n as [|n IH]; intros w posts0 Hn Hpc Hsent Hposts Hlen Hdraws;
    [unfold pages_left in Hn; lia|].
  cbv zeta. rewrite while_hasNextPage_equation_1; cbv zeta.
  pose proof (extract_draws random (draws w) (rows (data (response w)))) as [Hd _].
  assert (Hdraws' : snd (extractOperatorsFromTable random (draws w) (rows (data (response w))))
                    = k + 2 * List.length
                            (operators w ++
                             fst (extractOperatorsFromTable random (draws w)
                                    (rows (data (response w)))))%list)
    by (rewrite length_app; lia).
  assert (Hstay : forall r : Walked,
            sent_after r = sent w ->
            settled r = Fulfilled (operators w ++
                           fst (extractOperatorsFromTable random (draws w)
                                  (rows (data (response w)))))%list ->
            draws_after r = snd (extractOperatorsFromTable random (draws w)
                                   (rows (data (response w)))) ->
            List.length (sent_after r) <= 16 /\
            (exists posts, sent_after r = Get :: posts /\ Forall is_post posts) /\
            (forall ops, settled r = Fulfilled ops -> draws_after r = k + 2 * List.length ops)).
  { intros r Hs Hset Hdr. rewrite Hs, Hset, Hdr. split; [lia|]. split.
    - exists posts0. auto.
    - intros ops [= <-]. exact Hdraws'. }
  destruct (nextLink _ _) as [href|]; [|now apply Hstay].
  destruct (doPostBack_match href) as [[eventTarget eventArgument]|]; [|now apply Hstay].
  set (request := Post _ _).
  assert (Hsent' : (sent w ++ [request])%list = Get :: (posts0 ++ [request])%list)
    by (rewrite Hsent; reflexivity).
  assert (Hposts' : Forall is_post (posts0 ++ [request])%list)
    by (apply Forall_app; split; [assumption | repeat constructor]).
  assert (Hlen' : List.length (sent w ++ [request])%list = pageCount w + 1)
    by (rewrite length_app; cbn; lia).
  destruct (remote (sent w ++ [request])%list) as [response'|message].
  - destruct (le_lt_dec (pageCount w + 1) 15) as [Hle|Hgt].
    + match goal with
      | |- context [while_hasNextPage _ _ _ ?w'] =>
          apply (IH w' (posts0 ++ [request])%list)
      end; cbn [sent pageCount draws operators]; try assumption.
      * unfold pages_left in *. cbn [pageCount]. lia.
      * lia.
    + cbn [sent_after settled draws_after]. split; [lia|]. split.
      * exists (posts0 ++ [request])%list. auto.
      * intros ops [= <-]. exact Hdraws'.
  - cbn [sent_after settled draws_after]. split; [lia|]. split.
    + exists (posts0 ++ [request])%list. auto.
    + intros ops Habs. discriminate Habs.
Qed.

Lemma scrapeAllPages_shape (k : nat) :
  1 <= List.length (sent_after (scrapeAllPages deployment random remote k)) <= 16 /\
  (exists posts, sent_after (scrapeAllPages deployment random remote k) = Get :: posts
                 /\ Forall is_post posts) /\
  (forall ops, settled (scrapeAllPages deployment random remote k) = Fulfilled ops ->
               draws_after (scrapeAllPages deployment random remote k)
               = k + 2 * List.length ops).
Proof.
  unfold scrapeAllPages. destruct (remote [Get]) as [response0|message].
  - match goal with
    | |- context [while_hasNextPage _ _ _ ?w'] =>
        destruct (loop_is_bounded k 16 w' []) as (Hlen & (posts & Hsent & Hposts) & Hdraws)
    end; cbn [sent pageCount draws operators List.length]; try reflexivity; try lia.
    + unfold pages_left. cbn. lia.
    + constructor.
    + split; [|split; [now exists posts | assumption]].
      rewrite Hsent in *. cbn [List.length] in *. lia.
  - cbn. split; [lia|]. split; [exists []; auto | discriminate].
Qed.

(** X8. Whatever the site does, a walk sends one GET followed by POSTs only,
    at most 16 requests in all, and a walk that returns has made exactly two
    random draws for each record it returns. *)
Theorem walk_is_bounded (k : nat) :
  let r := scrapeAllPages deployment random remote k in
  1 <= List.length (sent_after r) <= 16 /\
  (exists posts, sent_after r = Get :: posts /\ Forall is_post posts) /\
  (forall ops, settled r = Fulfilled ops -> draws_after r = k + 2 * List.length ops).
Proof. cbv zeta. apply scrapeAllPages_shape. Qed.

(** The loop on a site of finitely many pages. *)
Lemma loop_on_finite_site (k : nat) (front : list Response) (last : Response) (n : nat) :
  let resps := (front ++ [last])%list in
  List.length resps <= 15 ->
  serves remote resps ->
  (forall i resp, nth_error front i = Some resp -> has_next resp (i + 2)) ->
  no_next last (List.length resps + 1) ->
  forall w, List.length resps - pageCount w <= n ->
  1 <= pageCount w <= List.length resps ->
  List.length (sent w) = pageCount w ->
  nth_error resps (pageCount w - 1) = Some (response w) ->
  operators w = fst (extractOperatorsFromTable random k
                       (rows_of (firstn (pageCount w - 1) resps))) ->
  draws w = snd (extractOperatorsFromTable random k
                   (rows_of (firstn (pageCount w - 1) resps))) ->
  let r := while_hasNextPage deployment random remote w in
  settled r = Fulfilled (fst (extractOperatorsFromTable random k (rows_of resps))) /\
  draws_after r = snd (extractOperatorsFromTable random k (rows_of resps)) /\
  List.length (sent_after r) = List.length resps.
Proof.
  cbv zeta. intros Hshort Hserves Hnext Hlast.
  set (resps := (front ++ [last])%list) in *.
  assert (Hlen_resps : List.length resps = List.length front + 1)
    by (unfold resps; rewrite length_app; reflexivity).
  induction n as [|n IH]; intros w Hn Hpc Hlen Hresp Hops Hdraws;
    rewrite while_hasNextPage_equation_1; cbv zeta.
  all: assert (Hupto : rows_of (firstn (pageCount w) resps)
                       = (rows_of (firstn (pageCount w - 1) resps)
                          ++ rows (data (response w)))%list)
         by (replace (pageCount w) with (S (pageCount w - 1)) at 1 by lia;
             rewrite (firstn_succ_nth_error _ _ _ Hresp); unfold rows_of;
             rewrite map_app, concat_app; cbn; now rewrite app_nil_r).
  all: assert (Hops' : (operators w ++ fst (extractOperatorsFromTable random (draws w)
                                             (rows (data (response w)))))%list
                       = fst (extractOperatorsFromTable random k
                                (rows_of (firstn (pageCount w) resps))))
         by (rewrite Hupto, (extract_app random), Hops, Hdraws; reflexivity).
  all: assert (Hdraws' : snd (extractOperatorsFromTable random (draws w)
                                (rows (data (response w))))
                         = snd (extractOperatorsFromTable random k
                                  (rows_of (firstn (pageCount w) resps))))
         by (rewrite Hupto, (extract_app random), Hdraws; reflexivity).
  all: rewrite Hops', Hdraws'.
  - (* the last page *)
    assert (Hp : pageCount w = List.length resps) by lia.
    assert (response w = last) as Hw.
    { rewrite Hp, Hlen_resps in Hresp. unfold resps in Hresp.
      rewrite nth_error_app2 in Hresp by lia.
      replace (List.length front + 1 - 1 - List.length front) with 0 in Hresp by lia.
      now injection Hresp. }
    unfold no_next in Hlast. rewrite <- Hw, <- Hp in Hlast.
    rewrite Hp, firstn_all in *.
    destruct (nextLink _ _) as [href|].
    + rewrite Hlast. cbn. auto.
    + cbn. auto.
  - destruct (Nat.eq_dec (pageCount w) (List.length resps)) as [Hp|Hp].
    + assert (response w = last) as Hw.
      { rewrite Hp, Hlen_resps in Hresp. unfold resps in Hresp.
        rewrite nth_error_app2 in Hresp by lia.
        replace (List.length front + 1 - 1 - List.length front) with 0 in Hresp by lia.
        now injection Hresp. }
      unfold no_next in Hlast. rewrite <- Hw, <- Hp in Hlast.
      rewrite Hp, firstn_all in *.
      destruct (nextLink _ _) as [href|].
      * rewrite Hlast. cbn. auto.
      * cbn. auto.
    + assert (Hfront : nth_error front (pageCount w - 1) = Some (response w)).
      { unfold resps in Hresp. rewrite nth_error_app1 in Hresp by lia. exact Hresp. }
      destruct (Hnext _ _ Hfront) as (href & [t a] & Hlink & Hmatch).
      replace (pageCount w - 1 + 2) with (pageCount w + 1) in Hlink by lia.
      rewrite Hlink, Hmatch.
      set (request := Post _ _).
      destruct (nth_error resps (pageCount w)) as [resp'|] eqn:Hnth;
        [|apply nth_error_None in Hnth; lia].
      rewrite (Hserves (sent w ++ [request])%list resp');
        [|destruct (sent w); discriminate
         |rewrite length_app; cbn; now replace (List.length (sent w) + 1 - 1) with (pageCount w) by lia].
      destruct (le_lt_dec (pageCount w + 1) 15) as [_|Hgt]; [|lia].
      apply IH; cbn [pageCount sent response operators draws].
      * lia.
      * lia.
      * rewrite length_app. cbn. lia.
      * now replace (pageCount w + 1 - 1) with (pageCount w) by lia.
      * now replace (pageCount w + 1 - 1) with (pageCount w) by lia.
      * now replace (pageCount w + 1 - 1) with (pageCount w) by lia.
Qed.

(** X9. On a site of at most 15 pages, each but the last with a control for
    the next page that parses, a walk sends as many requests as there are
    pages and returns the records of all rows of all pages in page order,
    as one extraction of the rows laid end to end would give them. *)
Theorem walk_of_a_finite_site (k : nat) (front : list Response) (last : Response) :
  let resps := (front ++ [last])%list in
  List.length resps <= 15 ->
  serves remote resps ->
  (forall i resp, nth_error front i = Some resp -> has_next resp (i + 2)) ->
  no_next last (List.length resps + 1) ->
  let r := scrapeAllPages deployment random remote k in
  settled r = Fulfilled (fst (extractOperatorsFromTable random k (rows_of resps))) /\
  draws_after r = snd (extractOperatorsFromTable random k (rows_of resps)) /\
  List.length (sent_after r) = List.length resps.
Proof.
  cbv zeta. intros Hshort Hserves Hnext Hlast.
  assert (Hlen_resps : List.length (front ++ [last])%list = List.length front + 1)
    by (rewrite length_app; reflexivity).
  destruct (nth_error (front ++ [last])%list 0) as [resp0|] eqn:H0;
    [|apply nth_error_None in H0; lia].
  unfold scrapeAllPages. rewrite (Hserves [Get] resp0); [|discriminate|exact H0].
  apply (loop_on_finite_site k front last (List.length (front ++ [last])%list));
    cbn [pageCount sent response operators draws List.length]; try assumption;
    try reflexivity; lia.
Qed.

End WalkerMore.

(** The three-page site as a list of responses. *)
Lemma three_pages_serves :
  serves three_pages
    ([ {| data := page_with_next 1; set_cookie := None |};
       {| data := page_with_next 2; set_cookie := None |} ]
     ++ [ {| data := last_page; set_cookie := None |} ]).
Proof.
  intros reqs resp Hne Hnth. unfold three_pages.
  destruct reqs as [|r1 [|r2 [|r3 [|r4 rest]]]]; cbn in *; try congruence.
  destruct rest; cbn in Hnth; discriminate.
Qed.

Lemma walk_of_a_finite_site_witness :
  List.length (sent_after (scrapeAllPages ServerJs half three_pages 0)) = 3.
Proof.
  refine (proj2 (proj2 (walk_of_a_finite_site ServerJs half three_pages 0
            [ {| data := page_with_next 1; set_cookie := None |};
              {| data := page_with_next 2; set_cookie := None |} ]
            {| data := last_page; set_cookie := None |} _ three_pages_serves _ _))).
  - cbn. lia.
  - intros [|[|i]] resp Hnth; cbn in Hnth.
    + injection Hnth as <-. apply (page_with_next_link 1).
    + injection Hnth as <-. apply (page_with_next_link 2).
    + destruct i; discriminate.
  - exact I.
Defined.

(* ===================================================================== *)
(** ** Cache Layer and interleaved requests: further properties *)
(* ===================================================================== *)

Section EndpointMore.
Context `{JSString}.
Variable deployment : Deployment.
Variable random : nat -> float.

(** X10. A call that finds the cache empty, or filled one hour or more ago
    (the limit included), always walks, starting with a GET; when its walk
    returns, the reply is the fresh collection with [cached: false], and the
    cache holds exactly that collection, stamped with the second reading of
    the clock. *)
Theorem call_on_an_empty_or_expired_cache_walks
    (remote : Remote) (c : Cache) (k : nat) (now_check now_store : Z) :
  cachedOperators c = None \/ (CACHE_DURATION <= now_check - lastCacheTime c)%Z ->
  let served := GET deployment random remote c k now_check now_store in
  (exists posts, requests served = Get :: posts) /\
  (forall ops, settled (scrapeAllPages deployment random remote k) = Fulfilled ops ->
     reply served = Success (List.length ops) ops false /\
     cache_after served = {| cachedOperators := Some ops; lastCacheTime := now_store |}).
Proof.
  intros Hmiss. cbv zeta. unfold GET.
  assert (Henter : GET_enter c now_check = None).
  { unfold GET_enter. destruct (cachedOperators c) as [ops|]; [|reflexivity].
    destruct Hmiss as [|Hold]; [discriminate|].
    destruct (Z.ltb_spec (now_check - lastCacheTime c) CACHE_DURATION); [lia | reflexivity]. }
  rewrite Henter.
  destruct (scrapeAllPages_shape deployment random remote k) as (_ & (posts & Hsent & _) & _).
  destruct (GET_resume c _ now_store) as [r c'] eqn:Hresume. cbn [requests reply cache_after].
  split; [now exists posts|].
  intros ops Hops. rewrite Hops in Hresume. cbn in Hresume. now injection Hresume as <- <-.
Qed.

End EndpointMore.

Lemma call_on_an_empty_or_expired_cache_walks_witness :
  exists posts,
    requests (GET ServerJs half three_pages stale_cache 0 3600000 3600900) = Get :: posts.
Proof.
  apply (call_on_an_empty_or_expired_cache_walks ServerJs half three_pages stale_cache 0
           3600000 3600900).
  right. vm_compute. discriminate.
Defined.

Lemma server_step_invariant (s : Server) (e : Event) :
  server_invariant s -> server_invariant (server_step s e).
Proof.
  intros (Hcount & Hcache & Hhit). destruct e as [now|walk now]; cbn [server_step].
  - destruct (GET_enter (cache s) now) as [r|] eqn:Henter; [|repeat split; assumption].
    unfold GET_enter in Henter. destruct (cachedOperators (cache s)) as [ops|] eqn:Hc;
      [|discriminate].
    destruct (_ <? _)%Z; [|discriminate]. injection Henter as <-.
    repeat split; cbn [replies cache].
    + apply Forall_app. split; [assumption | repeat constructor].
    + intros ops' Hops'. apply in_or_app. left. rewrite Hc in Hops'. now apply Hcache.
    + intros n ops' [Hin|[Heq|[]]]%in_app_or; apply in_or_app; left.
      * now apply Hhit.
      * injection Heq as <- <-. now apply Hcache.
  - destruct (walks_in_flight s) as [|n]; [repeat split; assumption|].
    destruct walk as [allOperators|message]; cbn [GET_resume]; repeat split;
      cbn [replies cache cachedOperators].
    + apply Forall_app. split; [assumption | repeat constructor].
    + intros ops [= <-]. apply in_or_app. right. now left.
    + intros n' ops' [Hin|[Heq|[]]]%in_app_or; [|discriminate].
      apply in_or_app. left. now apply Hhit.
    + apply Forall_app. split; [assumption | repeat constructor].
    + intros ops Hops. apply in_or_app. left. now apply Hcache.
    + intros n' ops' [Hin|[Heq|[]]]%in_app_or; [|discriminate].
      apply in_or_app. left. now apply Hhit.
Qed.

Lemma server_run_invariant (es : list Event) :
  forall s, server_invariant s -> server_invariant (server_run s es).
Proof.
  induction es as [|e es IH]; intros s Hs; [assumption|].
  apply IH. now apply server_step_invariant.
Qed.

(** X11. However requests and walks interleave from the start of the
    server, a reply marked [cached: true] carries a collection that a walk
    of this server returned and that was sent before as [cached: false];
    and every reply states the length of the collection it carries. *)
Theorem cached_replies_repeat_a_walk (es : list Event) (n : nat) (ops : list OperatorData) :
  let s := server_run server_at_start es in
  Forall counted (replies s) /\
  (In (Success n ops true) (replies s) -> In (Success n ops false) (replies s)).
Proof.
  cbv zeta.
  destruct (server_run_invariant es server_at_start) as (Hcount & _ & Hhit).
  - repeat split; cbn; [constructor | discriminate | tauto].
  - split; [assumption | apply Hhit].
Qed.

Lemma server_step_accounting (s : Server) (e : Event) :
  List.length (replies (server_step s e)) + walks_in_flight (server_step s e)
  = List.length (replies s) + walks_in_flight s + arrivals [e].
Proof.
  destruct e as [now|walk now]; cbn [server_step arrivals filter List.length].
  - destruct (GET_enter (cache s) now); cbn [replies walks_in_flight];
      rewrite ?length_app; cbn [List.length]; lia.
  - destruct (walks_in_flight s) as [|n] eqn:Hn; [rewrite Hn; lia|].
    destruct (GET_resume (cache s) walk now) as [r c'].
    cbn [replies walks_in_flight]. rewrite length_app. cbn [List.length]. lia.
Qed.

(** X12. Every request is answered exactly once or is still waiting for
    its walk: after any events from the start of the server, the replies
    sent and the walks in flight add up to the requests that arrived, and no
    more walks are in flight than were started. *)
Theorem every_arrival_is_answered_once (es : list Event) :
  let s := server_run server_at_start es in
  List.length (replies s) + walks_in_flight s = arrivals es /\
  walks_in_flight s <= walks_started s.
Proof.
  cbv zeta.
  assert (Hgen : forall s,
            walks_in_flight s <= walks_started s ->
            List.length (replies (server_run s es)) + walks_in_flight (server_run s es)
            = List.length (replies s) + walks_in_flight s + arrivals es /\
            walks_in_flight (server_run s es) <= walks_started (server_run s es)).
  { induction es as [|e es IH]; intros s Hle; [cbn; lia|].
    cbn [server_run fold_left]. fold (server_run (server_step s e) es).
    pose proof (server_step_accounting s e) as Hstep.
    assert (Hle' : walks_in_flight (server_step s e) <= walks_started (server_step s e)).
    { destruct e as [now|walk now]; cbn [server_step].
      - destruct (GET_enter (cache s) now); cbn; lia.
      - destruct (walks_in_flight s) as [|n] eqn:Hn; [lia|].
        destruct (GET_resume (cache s) walk now). cbn. lia. }
    destruct (IH _ Hle') as [Hrun Hfin]. split; [|assumption].
    rewrite Hrun, Hstep. unfold arrivals. cbn [filter].
    destruct e; cbn [List.length]; lia. }
  destruct (Hgen server_at_start) as [Hrun Hle]; [cbn; lia|].
  split; [rewrite Hrun; cbn; lia | assumption].
Qed.

(* ===================================================================== *)
(** ** Numbers: the shape of an id *)
(* ===================================================================== *)

Lemma prim_1000 : Prim2SF 1000 = S754_finite false 8796093022208000 (-43).
Proof. vm_compute. reflexivity. Qed.

Section RoundingThousand.
#[local] Open Scope Z_scope.

(** Rounding the product of a float below 1 with the float 1000 gives zero or
    a positive float below 1000. *)
Lemma mul_1000_below_1000 (mr : positive) (er : Z) :
  Z.pos mr < 2 ^ 53 -> er <= -53 ->
  let p := binary_round_aux prec emax false (Z.pos mr * M1000) (er + -43) loc_Exact in
  p = S754_zero false \/
  exists mp ep, p = S754_finite false mp ep /\ ep < 0 /\ Z.pos mp < 1000 * 2 ^ (- ep).
Proof.
  intros Hmr Her. cbv zeta.
  change (Z.pos mr * M1000) with (Z.pos (mr * 8796093022208000)).
  set (P := (mr * 8796093022208000)%positive).
  assert (HP : Z.pos P = Z.pos mr * M1000) by reflexivity.
  destruct (binary_round_aux_exact P (er + -43)) as (m1 & Hm1 & Hres).
  cbv zeta in Hres. rewrite Hres. clear Hres.
  set (ex := er + -43) in *.
  set (n := Z.max 0 (fexp prec emax (Zdigits2 (Z.pos P) + ex) - ex)) in *.
  assert (Hn0 : 0 <= n) by lia.
  set (e1 := ex + n) in *.
  assert (Hpn : 0 < 2 ^ n) by (apply Z.pow_pos_nonneg; lia).
  pose proof (Z.div_mod (Z.pos P) (2 ^ n) ltac:(lia)) as Hdm.
  pose proof (Z.mod_pos_bound (Z.pos P) (2 ^ n) ltac:(lia)) as Hmb.
  assert (Hm'0 : 0 <= Z.pos P / 2 ^ n) by (apply Z.div_pos; lia).
  (* the digits of the product *)
  pose proof (digits2_pos_bounds P) as [HdPlo HdPhi].
  set (dP := Z.pos (digits2_pos P)) in *.
  change (Zdigits2 (Z.pos P)) with dP in *.
  assert (HdP1 : 1 <= dP) by (unfold dP; lia).
  assert (HPlt : Z.pos P < 2 ^ (53 - er)).
  { rewrite HP. replace (53 - er) with (53 + (- er - 53) + 53) by lia.
    rewrite !Z.pow_add_r by lia.
    assert (0 < 2 ^ (- er - 53)) by (apply Z.pow_pos_nonneg; lia).
    unfold M1000. change (2 ^ 53) with 9007199254740992 in *. nia. }
  assert (HdPle : dP <= 53 - er).
  { assert (2 ^ (dP - 1) < 2 ^ (53 - er)) by lia.
    apply Z.pow_lt_mono_r_iff in H; lia. }
  assert (He1 : e1 <= -43) by (unfold e1, n; rewrite fexp_eq; lia).
  (* the mantissa after the first shift has at most 53 digits *)
  assert (Hm'53 : Z.pos P / 2 ^ n < 2 ^ 53).
  { apply Z.div_lt_upper_bound; [assumption|].
    rewrite <- Z.pow_add_r by lia.
    apply Z.lt_le_trans with (1 := HdPhi). apply Z.pow_le_mono_r; [lia|].
    unfold n. rewrite fexp_eq. lia. }
  assert (Hm1lt : m1 < 1000 * 2 ^ (- e1)).
  { destruct (Z.eq_dec e1 (-43)) as [He43|Hne].
    - (* the binade of 512 .. 1024 *)
      rewrite He43. change (1000 * 2 ^ (- -43)) with M1000.
      assert (Hn : n = - er) by lia.
      assert (Herr : er = -53).
      { unfold e1, n in He43. rewrite fexp_eq in He43.
        assert (HdPeq : dP = 53 - er) by lia.
        rewrite HdPeq in HdPlo.
        assert (HPhi2 : Z.pos P < 2 ^ 53 * 2 ^ 53).
        { rewrite HP. unfold M1000. change (2 ^ 53) with 9007199254740992 in *. nia. }
        rewrite <- Z.pow_add_r in HPhi2 by lia.
        assert (Hpow : 2 ^ (53 - er - 1) < 2 ^ (53 + 53)) by lia.
        apply Z.pow_lt_mono_r_iff in Hpow; lia. }
      subst er. replace n with 53 in * by lia.
      change (2 ^ 53) with 9007199254740992 in *.
      unfold M1000 in *. rewrite HP in *.
      revert Hm1 Hdm Hmb.
      generalize ((Z.pos mr * 8796093022208000) / 9007199254740992)
                 ((Z.pos mr * 8796093022208000) mod 9007199254740992).
      intros q rem Hm1 Hdm Hmb. lia.
    - assert (He44 : e1 <= -44) by lia.
      assert (Hm1le : m1 <= 2 ^ 53) by lia.
      apply Z.le_lt_trans with (1 := Hm1le).
      replace (- e1) with (44 + (- e1 - 44)) by lia. rewrite Z.pow_add_r by lia.
      assert (0 < 2 ^ (- e1 - 44)) by (apply Z.pow_pos_nonneg; lia).
      change (2 ^ 53) with 9007199254740992. change (2 ^ 44) with 17592186044416. nia. }
  assert (Hm1pos : 0 <= m1) by lia.
  set (n2 := Z.max 0 (fexp prec emax (Zdigits2 m1 + e1) - e1)).
  assert (Hn2 : 0 <= n2) by lia.
  assert (Hd1 : Zdigits2 m1 <= 54).
  { apply Zdigits2_le; [lia| |lia]. change (2 ^ 54) with (2 * 2 ^ 53). lia. }
  assert (He2 : e1 + n2 < 0) by (unfold n2; rewrite fexp_eq; lia).
  assert (Hpn2 : 0 < 2 ^ n2) by (apply Z.pow_pos_nonneg; lia).
  assert (Hsplit : 2 ^ (- e1) = 2 ^ n2 * 2 ^ (- (e1 + n2))).
  { rewrite <- Z.pow_add_r by lia. f_equal. lia. }
  assert (Hm2 : 0 <= m1 / 2 ^ n2 < 1000 * 2 ^ (- (e1 + n2))).
  { split; [apply Z.div_pos; lia|].
    apply Z.div_lt_upper_bound; [assumption|]. rewrite Hsplit in Hm1lt. lia. }
  destruct (m1 / 2 ^ n2) as [|m2|m2]; [now left | | lia].
  right. exists m2, (e1 + n2).
  destruct (Z.leb_spec (e1 + n2) (emax - prec)) as [_|Hbad];
    [|change (emax - prec) with 971 in Hbad; lia].
  split; [reflexivity|]. split; [assumption | apply Hm2].
Qed.

End RoundingThousand.

(** [Math.floor(Math.random() * 1000)] is an integer from 0 to 999. *)
Lemma floor_thousand (r : float) :
  unit_interval r = true ->
  exists n, (0 <= n <= 999)%Z /\ floor_toString (r * 1000)%float = decimal n.
Proof.
  intros Hr. unfold floor_toString. rewrite mul_spec, prim_1000.
  destruct (unit_interval_cases r Hr) as [[s ->] | (mr & er & -> & Hmr & Her)].
  - exists 0%Z. split; [lia | reflexivity].
  - unfold SF64mul. cbn [SFmul xorb].
    change (Z.pos (mr * 8796093022208000)) with (Z.pos mr * M1000)%Z.
    destruct (mul_1000_below_1000 mr er Hmr Her) as [Hz | (mp & ep & Hp & Hep & Hmp)];
      cbv zeta in *.
    + rewrite Hz. exists 0%Z. split; [lia | reflexivity].
    + rewrite Hp. exists (floor_finite false mp ep). split; [|reflexivity].
      unfold floor_finite. destruct (Z.leb_spec 0 ep) as [Hbad|_]; [lia|].
      assert (0 < 2 ^ (- ep))%Z by (apply Z.pow_pos_nonneg; lia).
      split; [apply Z.div_pos; lia|].
      assert (Z.pos mp / 2 ^ (- ep) < 1000)%Z; [|lia].
      apply Z.div_lt_upper_bound; lia.
Qed.

Lemma string_forall_app (f : ascii -> bool) (s t : string) :
  string_forall f (s ++ t) = string_forall f s && string_forall f t.
Proof. induction s as [|c s IH]; cbn; [reflexivity|]. now rewrite IH, andb_assoc. Qed.

Lemma strip_non_alnum_class (s : string) :
  string_forall is_lower_alnum (strip_non_alnum s) = true.
Proof.
  induction s as [|c s IH]; [reflexivity|].
  cbn [strip_non_alnum]. destruct (is_lower_alnum c) eqn:Hc; [|assumption].
  cbn [string_forall]. now rewrite Hc.
Qed.

Lemma slice0_class (f : ascii -> bool) (n : nat) (s : string) :
  string_forall f s = true -> string_forall f (slice0 n s) = true.
Proof.
  revert s. induction n as [|n IH]; intros [|c s] Hs; try reflexivity.
  cbn in *. apply andb_prop in Hs. destruct Hs as [-> Hs]. now apply IH.
Qed.

Lemma slice0_length (n : nat) (s : string) : String.length (slice0 n s) <= n.
Proof.
  revert s. induction n as [|n IH]; intros [|c s]; cbn; try lia.
  specialize (IH s). lia.
Qed.

Lemma string_length_app (s t : string) :
  String.length (s ++ t) = String.length s + String.length t.
Proof. induction s as [|c s IH]; cbn; [reflexivity | now rewrite IH]. Qed.

(** The numerals of 0 to 999 have one to three characters of the class. *)
Lemma decimal_upto_999 (n : Z) :
  (0 <= n <= 999)%Z ->
  string_forall is_lower_alnum (decimal n) = true /\
  1 <= String.length (decimal n) <= 3.
Proof.
  intros Hn.
  assert (Hall : forallb (fun k => let d := decimal (Z.of_nat k) in
                            string_forall is_lower_alnum d
                            && (1 <=? String.length d)%nat && (String.length d <=? 3)%nat)
                         (seq 0 1000) = true) by (vm_compute; reflexivity).
  rewrite forallb_forall in Hall.
  specialize (Hall (Z.to_nat n)). rewrite Z2Nat.id in Hall by lia.
  cbv zeta in Hall.
  assert (Hin : In (Z.to_nat n) (seq 0 1000)) by (apply in_seq; lia).
  apply Hall in Hin. apply andb_prop in Hin. destruct Hin as [Hin Hhi].
  apply andb_prop in Hin. destruct Hin as [Hc Hlo].
  apply Nat.leb_le in Hlo, Hhi. now split.
Qed.

(** X13. For every value in [0, 1) of the random source, an id is the
    name-derived prefix (at most 10 characters) followed by the numeral of an
    integer from 0 to 999: one to thirteen characters, all of them lower-case
    letters or digits. *)
Theorem id_is_a_short_lowercase_word `{JSString} (name : string) (r : float) :
  unit_interval r = true ->
  exists n, (0 <= n <= 999)%Z /\
    generateId name r = idPrefix name ++ decimal n /\
    String.length (idPrefix name) <= 10 /\
    string_forall is_lower_alnum (generateId name r) = true /\
    1 <= String.length (generateId name r) <= 13.
Proof.
  intros Hr. destruct (floor_thousand r Hr) as (n & Hn & Hfloor).
  destruct (decimal_upto_999 n Hn) as (Hclass & Hlen).
  pose proof (slice0_length 10 (strip_non_alnum (toLowerCase name))) as Hpre.
  fold (idPrefix name) in Hpre.
  exists n. unfold generateId. rewrite Hfloor.
  split; [assumption|]. split; [reflexivity|]. split; [assumption|]. split.
  - rewrite string_forall_app, Hclass, andb_true_r.
    apply slice0_class, strip_non_alnum_class.
  - rewrite string_length_app. lia.
Qed.

Lemma id_is_a_short_lowercase_word_witness :
  exists n, (0 <= n <= 999)%Z /\
    generateId "Sea Sports Belize" 0.5%float = idPrefix "Sea Sports Belize" ++ decimal n /\
    String.length (idPrefix "Sea Sports Belize") <= 10 /\
    string_forall is_lower_alnum (generateId "Sea Sports Belize" 0.5%float) = true /\
    1 <= String.length (generateId "Sea Sports Belize" 0.5%float) <= 13.
Proof. apply id_is_a_short_lowercase_word. reflexivity. Defined.

(* ===================================================================== *)
(** ** Field Normalizer: location and district agree *)
(* ===================================================================== *)

Section LocationFacts.
Context `{JSString}.

(** The location found is the fallback or an entry whose lower-cased text
    occurs in the lower-cased address. *)
Lemma first_location_found (address : string) (locs : list string) :
  first_location address locs = "Belize" \/
  (In (first_location address locs) locs /\
   includes (toLowerCase address) (toLowerCase (first_location address locs)) = true).
Proof.
  induction locs as [|loc rest IH]; cbn [first_location]; [now left|].
  destruct (includes (toLowerCase address) (toLowerCase loc)) eqn:Hinc.
  - right. split; [now left | assumption].
  - destruct IH as [Hb | [Hin Hfound]]; [now left|].
    right. split; [now right | assumption].
Qed.

(** X14. A record located in San Ignacio, Santa Elena or Benque is in the
    Cayo district, whatever else its address says ([toLowerCase] being the
    ASCII one on these three names). *)
Theorem cayo_town_is_in_cayo (address : string) :
  lowers cayo_towns ->
  In (extractLocation address) cayo_towns ->
  extractDistrict address = "Cayo".
Proof.
  intros Hlow Hin. unfold extractLocation in Hin. unfold extractDistrict.
  destruct (String.eqb address "").
  - cbn in Hin. repeat (destruct Hin as [Hin | Hin]; [discriminate Hin|]). destruct Hin.
  - destruct (first_location_found address locations) as [Hb | [_ Hfound]].
    + rewrite Hb in Hin. cbn in Hin.
      repeat (destruct Hin as [Hin | Hin]; [discriminate Hin|]). destruct Hin.
    + unfold lowers, cayo_towns in Hlow.
      apply Forall_cons_iff in Hlow. destruct Hlow as [H1 Hlow].
      apply Forall_cons_iff in Hlow. destruct Hlow as [H2 Hlow].
      apply Forall_cons_iff in Hlow. destruct Hlow as [H3 _].
      change (toLowerCase "San Ignacio" = "san ignacio") in H1.
      change (toLowerCase "Santa Elena" = "santa elena") in H2.
      change (toLowerCase "Benque" = "benque") in H3. cbv zeta.
      destruct Hin as [Hin | [Hin | [Hin | []]]]; rewrite <- Hin in Hfound.
      * rewrite H1 in Hfound. rewrite Hfound. now rewrite !orb_true_r.
      * rewrite H2 in Hfound. rewrite Hfound. now rewrite !orb_true_r.
      * rewrite H3 in Hfound. rewrite Hfound. now rewrite !orb_true_r.
Qed.

End LocationFacts.

Lemma cayo_town_is_in_cayo_witness :
  extractDistrict "12 Burns Avenue, San Ignacio Town" = "Cayo".
Proof.
  apply cayo_town_is_in_cayo.
  - repeat constructor.
  - vm_compute. left. reflexivity.
Defined.

(* ===================================================================== *)
(** ** The prototype's helpers: telephone numbers and ids *)
(* ===================================================================== *)

Lemma digits_only_app (s t : string) :
  Prototype.digits_only (s ++ t) = Prototype.digits_only s ++ Prototype.digits_only t.
Proof.
  induction s as [|c s IH]; cbn [append Prototype.digits_only]; [reflexivity|].
  destruct (Prototype.is_digit c); cbn [append]; now rewrite IH.
Qed.

Lemma digits_only_class (s : string) :
  string_forall Prototype.is_digit (Prototype.digits_only s) = true.
Proof.
  induction s as [|c s IH]; [reflexivity|]. cbn [Prototype.digits_only].
  destruct (Prototype.is_digit c) eqn:Hc; [|assumption].
  cbn [string_forall]. now rewrite Hc.
Qed.

Lemma digits_only_fixed (s : string) :
  string_forall Prototype.is_digit s = true -> Prototype.digits_only s = s.
Proof.
  induction s as [|c s IH]; [reflexivity|]. cbn [string_forall Prototype.digits_only].
  intros [Hc Hs]%andb_prop. rewrite Hc. now rewrite IH.
Qed.

Lemma slice_from_class (f : ascii -> bool) (n : nat) (s : string) :
  string_forall f s = true -> string_forall f (Prototype.slice_from n s) = true.
Proof.
  revert s. induction n as [|n IH]; intros [|c s] Hs; try assumption.
  cbn [Prototype.slice_from]. cbn in Hs. apply andb_prop in Hs. now apply IH.
Qed.

Lemma slice_split (n : nat) (s : string) : slice0 n s ++ Prototype.slice_from n s = s.
Proof.
  revert s. induction n as [|n IH]; intros [|c s]; try reflexivity.
  cbn [slice0 Prototype.slice_from append]. now rewrite IH.
Qed.

(** The digits of a formatted number are those of the number. *)
Lemma formatPhone_digits (phone : string) :
  Prototype.digits_only (Prototype.formatPhone phone) = Prototype.digits_only phone.
Proof.
  unfold Prototype.formatPhone. cbv zeta.
  destruct (String.length (Prototype.digits_only phone) =? 7)%nat; [|reflexivity].
  pose proof (digits_only_class phone) as Hclass.
  rewrite !digits_only_app.
  rewrite (digits_only_fixed (slice0 3 _)) by now apply slice0_class.
  rewrite (digits_only_fixed (Prototype.slice_from 3 _)) by now apply slice_from_class.
  change (Prototype.digits_only "-") with "". cbn [append]. apply slice_split.
Qed.

(** X15. Formatting a telephone number keeps its digits, in order; the
    result is the number as given or has eight characters (seven digits and
    a dash); and formatting twice is formatting once. *)
Theorem formatPhone_keeps_the_digits (phone : string) :
  Prototype.digits_only (Prototype.formatPhone phone) = Prototype.digits_only phone /\
  (Prototype.formatPhone phone = phone \/ String.length (Prototype.formatPhone phone) = 8) /\
  Prototype.formatPhone (Prototype.formatPhone phone) = Prototype.formatPhone phone.
Proof.
  split; [apply formatPhone_digits|]. split.
  - unfold Prototype.formatPhone. cbv zeta.
    destruct (Nat.eqb_spec (String.length (Prototype.digits_only phone)) 7) as [Hlen|];
      [right | now left].
    rewrite <- (slice_split 3 (Prototype.digits_only phone)) in Hlen.
    rewrite !string_length_app in *. cbn [String.length]. lia.
  - unfold Prototype.formatPhone at 1. cbv zeta. rewrite formatPhone_digits.
    unfold Prototype.formatPhone. cbv zeta.
    destruct (String.length (Prototype.digits_only phone) =? 7)%nat; reflexivity.
Qed.

Lemma dash_non_alnum_class (s : string) :
  string_forall id_class (Prototype.dash_non_alnum s) = true.
Proof.
  induction s as [|c s IH]; [reflexivity|].
  cbn [Prototype.dash_non_alnum string_forall]. rewrite IH, andb_true_r.
  unfold id_class. destruct (is_lower_alnum c) eqn:Hc; [now rewrite Hc | reflexivity].
Qed.

Lemma collapse_dashes_cons (c c' : ascii) (s : string) :
  Prototype.collapse_dashes (String c (String c' s)) =
  if Ascii.eqb c Prototype.dash && Ascii.eqb c' Prototype.dash
  then Prototype.collapse_dashes (String c' s)
  else String c (Prototype.collapse_dashes (String c' s)).
Proof. reflexivity. Qed.

Lemma collapse_dashes_class (f : ascii -> bool) (s : string) :
  string_forall f s = true -> string_forall f (Prototype.collapse_dashes s) = true.
Proof.
  induction s as [|c s IH]; [reflexivity|]. cbn [string_forall]. intros [Hc Hs]%andb_prop.
  destruct s as [|c' s'].
  - cbn. now rewrite Hc.
  - rewrite collapse_dashes_cons.
    destruct (Ascii.eqb c Prototype.dash && Ascii.eqb c' Prototype.dash); [now apply IH|].
    cbn [string_forall]. rewrite Hc. now apply IH.
Qed.

(** Collapsing keeps the first character. *)
Lemma collapse_dashes_head (c : ascii) (s : string) :
  exists t, Prototype.collapse_dashes (String c s) = String c t.
Proof.
  revert c. induction s as [|c' s IH]; intros c; [now exists ""|].
  rewrite collapse_dashes_cons.
  destruct (Ascii.eqb_spec c Prototype.dash) as [Hc|Hc];
    destruct (Ascii.eqb_spec c' Prototype.dash) as [Hc'|Hc']; cbn [andb];
    try (eexists; reflexivity).
  destruct (IH c') as [t Ht]. exists t. rewrite Hc, <- Hc'. exact Ht.
Qed.

Lemma prefix_dashes (c : ascii) (t : string) :
  prefix "--" (String c t) = Ascii.eqb c Prototype.dash && prefix "-" t.
Proof.
  cbn [prefix]. destruct (ascii_dec "-" c) as [e|n].
  - subst c. reflexivity.
  - destruct (Ascii.eqb_spec c Prototype.dash) as [e|_]; [|reflexivity].
    exfalso. apply n. now rewrite e.
Qed.

Lemma prefix_dash (c : ascii) (t : string) :
  prefix "-" (String c t) = Ascii.eqb c Prototype.dash.
Proof.
  cbn [prefix]. destruct (ascii_dec "-" c) as [e|n].
  - subst c. now destruct t.
  - destruct (Ascii.eqb_spec c Prototype.dash) as [e|_]; [|reflexivity].
    exfalso. apply n. now rewrite e.
Qed.

Lemma collapse_dashes_no_run (s : string) :
  includes (Prototype.collapse_dashes s) "--" = false.
Proof.
  induction s as [|c s IH]; [reflexivity|].
  destruct s as [|c' s'].
  - cbn [Prototype.collapse_dashes includes]. rewrite prefix_dashes.
    cbn. now rewrite andb_false_r.
  - rewrite collapse_dashes_cons.
    destruct (Ascii.eqb c Prototype.dash && Ascii.eqb c' Prototype.dash) eqn:Hrun;
      [exact IH|].
    cbn [includes]. rewrite IH, orb_false_r, prefix_dashes.
    destruct (collapse_dashes_head c' s') as [t ->]. rewrite prefix_dash. exact Hrun.
Qed.

(** X16. An id of the prototype consists of lower-case letters, digits and
    dashes, and no two dashes follow one another. *)
Theorem prototype_id_has_single_dashes `{JSString} (name : string) :
  string_forall id_class (Prototype.generateId name) = true /\
  includes (Prototype.generateId name) "--" = false.
Proof.
  unfold Prototype.generateId. split.
  - apply collapse_dashes_class, dash_non_alnum_class.
  - apply collapse_dashes_no_run.
Qed.

(* ===================================================================== *)
(** ** The prototype's client: cache and filters *)
(* ===================================================================== *)

(** One call keeps the invariant of the cache and shows something. *)
Lemma call_invariant (c : Prototype.ClientCache) (x : Prototype.Call) :
  client_invariant c ->
  client_invariant (Prototype.client_cache (Prototype.call c x)) /\
  Prototype.shown (Prototype.call c x) <> [] /\
  (Prototype.fetched (Prototype.call c x) = false ->
   Prototype.cache_data c = Some (Prototype.shown (Prototype.call c x)) /\
   Prototype.client_cache (Prototype.call c x) = c).
Proof.
  intros [Hexp Hinv]. unfold Prototype.call, Prototype.fetchLiveData.
  destruct (Prototype.isCacheValid c (Prototype.call_now x)) eqn:Hvalid.
  - destruct (Prototype.cache_data c) as [cached|] eqn:Hdata.
    + cbn [Prototype.shown Prototype.client_cache Prototype.fetched].
      split; [split; [assumption | now rewrite Hdata]|].
      split; [apply Hinv | auto].
    + unfold Prototype.isCacheValid in Hvalid. rewrite Hdata in Hvalid. discriminate.
  - assert (Hfallback :
      client_invariant c /\ Prototype.loadFallbackData <> [] /\
      (true = false -> Prototype.cache_data c = Some Prototype.loadFallbackData /\ c = c))
      by (repeat split; [assumption | assumption | discriminate | discriminate]).
    destruct (Prototype.call_live x) as [[count [|o data] cached | message error] | message];
      try exact Hfallback.
    cbn [Prototype.shown Prototype.client_cache Prototype.fetched map].
    split; [|split; [discriminate | discriminate]].
    split; [assumption|]. cbn [Prototype.cache_data Prototype.cache_timestamp].
    split; [discriminate|]. split; [now exists (o :: data) | discriminate].
Qed.

Lemma client_run_invariant (xs : list Prototype.Call) (c : Prototype.ClientCache) :
  client_invariant c -> client_invariant (Prototype.client_run c xs).
Proof.
  revert c. induction xs as [|x xs IH]; intros c Hc; [assumption|].
  cbn [Prototype.client_run fold_left]. apply IH. now apply call_invariant.
Qed.

Lemma cache_new_invariant : client_invariant Prototype.cache_new.
Proof. split; reflexivity. Qed.

(** X17. Whatever calls were made since the page was loaded, the client's
    cache holds nothing or a non-empty list of records of the server with a
    time stamp (never the fallback record), and the next call shows a list
    that is not empty; when it sends no request it shows the cached list and
    leaves the cache as it is. *)
Theorem client_cache_holds_live_data (xs : list Prototype.Call) (x : Prototype.Call) :
  let c := Prototype.client_run Prototype.cache_new xs in
  client_invariant c /\
  Prototype.shown (Prototype.call c x) <> [] /\
  (Prototype.fetched (Prototype.call c x) = false ->
   Prototype.cache_data c = Some (Prototype.shown (Prototype.call c x)) /\
   Prototype.client_cache (Prototype.call c x) = c).
Proof.
  cbv zeta.
  pose proof (client_run_invariant xs _ cache_new_invariant) as Hinv.
  split; [assumption|]. apply (call_invariant _ x Hinv).
Qed.

Section FilterFacts.
Context `{JSString}.
Variable parseFloat_number : string -> float.

Lemma filter_throwing_total {A : Type} (p : A -> option bool) (l : list A) :
  (forall x, In x l -> p x <> None) ->
  exists kept, Prototype.filter_throwing p l = Some kept /\ incl kept l.
Proof.
  induction l as [|x rest IH]; intros Hp; [exists []; split; [reflexivity | apply incl_refl]|].
  cbn [Prototype.filter_throwing].
  destruct (p x) as [b|] eqn:Hx; [|exfalso; apply (Hp x); [now left | assumption]].
  destruct IH as (kept & -> & Hincl); [intros y Hy; apply Hp; now right|].
  exists (if b then x :: kept else kept). split; [reflexivity|].
  destruct b.
  - intros y [<- | Hy]; [now left | right; now apply Hincl].
  - now apply incl_tl.
Qed.

(** The passes before the search pass keep a part of the list. *)
Lemma filter_pass {A : Type} (b : bool) (p : A -> bool) (l l0 : list A) :
  incl l l0 -> incl (if b then filter p l else l) l0.
Proof.
  intros Hl. destruct b; [|assumption].
  intros x Hx. apply Hl. now apply incl_filter in Hx.
Qed.

(** Filtering records that all have an [email] does not throw. *)
Lemma filterOperators_total (operators : list Prototype.ClientOperator)
    (filters : Prototype.Filters) :
  (forall op, In op operators -> Prototype.c_email op <> None) ->
  exists kept, Prototype.filterOperators parseFloat_number operators filters = Some kept /\
               incl kept operators.
Proof.
  intros Hemail. unfold Prototype.filterOperators. cbv zeta.
  match goal with
  | |- context [if negb (String.eqb _ "") then Prototype.filter_throwing _ ?l else _] =>
      assert (Hincl : incl l operators)
        by (repeat apply filter_pass; apply incl_refl);
      generalize dependent l
  end.
  intros l Hincl.
  destruct (negb (String.eqb (Prototype.f_search filters) "")).
  - destruct (filter_throwing_total
                (Prototype.matches_search (toLowerCase (Prototype.f_search filters))) l)
      as (kept & -> & Hkept).
    + intros op Hop. unfold Prototype.matches_search.
      destruct (includes _ _); [discriminate|].
      destruct (includes _ _); [discriminate|].
      destruct (Prototype.c_email op) eqn:He; [discriminate|].
      exfalso. apply (Hemail op); [now apply Hincl | assumption].
    + exists kept. split; [reflexivity|]. intros x Hx. now apply Hincl, Hkept.
  - now exists l.
Qed.

(** X18. Filtering what the cache holds never throws, whatever the filters,
    and gives records of the cached list. *)
Theorem filtering_cached_data_does_not_throw (xs : list Prototype.Call)
    (data : list Prototype.ClientOperator) (filters : Prototype.Filters) :
  Prototype.cache_data (Prototype.client_run Prototype.cache_new xs) = Some data ->
  exists kept, Prototype.filterOperators parseFloat_number data filters = Some kept /\
               incl kept data.
Proof.
  intros Hdata.
  destruct (client_run_invariant xs _ cache_new_invariant) as [_ Hinv].
  rewrite Hdata in Hinv. destruct Hinv as (_ & (ops & ->) & _).
  apply filterOperators_total.
  intros op (o & <- & _)%in_map_iff. discriminate.
Qed.

(** X19. With no live data on an empty cache the page holds the fallback
    record, and typing a search text that occurs neither in its name nor in
    its address makes [filterOperators] throw: the record has no [email]. *)
Theorem search_on_the_fallback_throws (now now_store : Z) (live : Settled Reply)
    (value : string) :
  no_live_data live ->
  value <> "" ->
  includes (toLowerCase "System Offline - Start Server") (toLowerCase value) = false ->
  includes (toLowerCase "Run 'node server.js' to see live data") (toLowerCase value) = false ->
  Prototype.filterOperators parseFloat_number
    (Prototype.shown (Prototype.fetchLiveData Prototype.cache_new now live now_store))
    (Prototype.set_search Prototype.filters_at_start value) = None.
Proof.
  intros Hlive Hvalue Hname Haddress.
  assert (Hshown : Prototype.shown
                     (Prototype.fetchLiveData Prototype.cache_new now live now_store)
                   = Prototype.loadFallbackData).
  { unfold Prototype.fetchLiveData. cbn [Prototype.isCacheValid Prototype.cache_new
      Prototype.cache_data Prototype.cache_timestamp].
    destruct live as [[count [|o data] cached | message error] | message];
      try reflexivity. destruct Hlive. }
  rewrite Hshown. unfold Prototype.filterOperators. cbv zeta.
  cbn [Prototype.set_search Prototype.filters_at_start Prototype.f_category
       Prototype.f_district Prototype.f_location Prototype.f_priceRange
       Prototype.f_minRating Prototype.f_search].
  change (Prototype.chosen "all") with false. cbv iota.
  change (PrimFloat.is_zero 0 || PrimFloat.is_nan 0) with true. cbn [negb].
  destruct (String.eqb_spec value "") as [|_]; [contradiction|]. cbn [negb].
  unfold Prototype.loadFallbackData. cbn [Prototype.filter_throwing].
  unfold Prototype.matches_search.
  cbn [Prototype.c_name Prototype.c_address Prototype.ca_full Prototype.c_email].
  now rewrite Hname, Haddress.
Qed.

Variable random : nat -> float.

Lemma filter_none {A : Type} (p : A -> bool) (l : list A) :
  (forall x, In x l -> p x = false) -> filter p l = [].
Proof.
  induction l as [|x rest IH]; intros Hp; [reflexivity|]. cbn [filter].
  rewrite (Hp x) by now left. apply IH. intros y Hy. apply Hp. now right.
Qed.

(** The category of every extracted record is one of the seven. *)
Lemma extracted_category (k : nat) (rows : list Row) (o : OperatorData) :
  In o (fst (extractOperatorsFromTable random k rows)) -> In (op_category o) category_values.
Proof.
  intros Hin. destruct (extracted_from_row random rows k o Hin) as (k0 & tds & _ & Hrow).
  destruct (extractRow_kept random _ _ _ _ Hrow) as (_ & _ & ->).
  apply categorizeOperator_values.
Qed.

(** X20. A category filter that is not one of the seven category texts of
    the scraper (a lower-case "diving", say) shows no record of the live
    data. *)
Theorem unknown_category_shows_nothing (k : nat) (rows : list Row)
    (filters : Prototype.Filters) :
  Prototype.chosen (Prototype.f_category filters) = true ->
  ~ In (Prototype.f_category filters) category_values ->
  Prototype.filterOperators parseFloat_number
    (map Prototype.of_server (fst (extractOperatorsFromTable random k rows))) filters
  = Some [].
Proof.
  intros Hchosen Hunknown. unfold Prototype.filterOperators. cbv zeta. rewrite Hchosen.
  set (live := map Prototype.of_server (fst (extractOperatorsFromTable random k rows))).
  assert (Hnone : filter (fun op => String.eqb (Prototype.c_category op)
                                               (Prototype.f_category filters)) live = []).
  { apply filter_none.
    intros op (o & <- & Ho)%in_map_iff. cbn [Prototype.of_server Prototype.c_category].
    apply String.eqb_neq. intros Heq. apply Hunknown. rewrite <- Heq.
    now apply (extracted_category k rows). }
  rewrite Hnone.
  repeat match goal with
         | |- context [if ?b then _ else _] => destruct b
         end; reflexivity.
Qed.

End FilterFacts.

Lemma filtering_cached_data_does_not_throw_witness :
  exists kept,
    Prototype.filterOperators (fun _ => 4.5%float)
      [Prototype.of_server (sample_operator "seadiveco500")]
      (Prototype.set_search Prototype.filters_at_start "reef") = Some kept /\
    incl kept [Prototype.of_server (sample_operator "seadiveco500")].
Proof.
  apply (filtering_cached_data_does_not_throw (fun _ => 4.5%float)
           [ {| Prototype.call_now := 1000;
                Prototype.call_live :=
                  Fulfilled (Success 1 [sample_operator "seadiveco500"] false);
                Prototype.call_store := 2000 |} ]).
  reflexivity.
Defined.

Lemma search_on_the_fallback_throws_witness :
  Prototype.filterOperators (fun _ => 4.5%float)
    (Prototype.shown
       (Prototype.fetchLiveData Prototype.cache_new 1000 (Rejected "Failed to fetch") 2000))
    (Prototype.set_search Prototype.filters_at_start "reef") = None.
Proof.
  apply search_on_the_fallback_throws.
  - exact I.
  - discriminate.
  - reflexivity.
  - reflexivity.
Defined.

Lemma unknown_category_shows_nothing_witness :
  Prototype.filterOperators (fun _ => 4.5%float)
    (map Prototype.of_server (fst (extractOperatorsFromTable half 0 [sample_row])))
    {| Prototype.f_category := "diving"; Prototype.f_search := "";
       Prototype.f_district := "all"; Prototype.f_priceRange := "all";
       Prototype.f_location := "all"; Prototype.f_minRating := 0 |}
  = Some [].
Proof.
  apply unknown_category_shows_nothing.
  - reflexivity.
  - cbn. intuition discriminate.
Defined.

(* ===================================================================== *)
(** ** The page: what the filters show of the scraped records *)
(* ===================================================================== *)

Lemma includes_empty (s : string) : includes s "" = true.
Proof. destruct s; reflexivity. Qed.

Lemma filter_all {A : Type} (p : A -> bool) (l : list A) :
  (forall x, In x l -> p x = true) -> filter p l = l.
Proof.
  induction l as [|x rest IH]; intros Hp; [reflexivity|]. cbn [filter].
  rewrite (Hp x) by now left. f_equal. apply IH. intros y Hy. apply Hp. now right.
Qed.

Section PageFacts.
Context `{JSString}.
Variable parseFloat_number : string -> float.
Variable random : nat -> float.

(** The rating of every extracted record is one of the nine texts. *)
Lemma extracted_rating (k : nat) (rows : list Row) (o : OperatorData) :
  (forall i, unit_interval (random i) = true) ->
  In o (fst (extractOperatorsFromTable random k rows)) -> In (op_rating o) ratings.
Proof.
  intros Hrandom Hin.
  destruct (extracted_from_row random rows k o Hin) as (k0 & tds & _ & Hrow).
  destruct (extractRow_kept random _ _ _ _ Hrow) as (_ & _ & ->).
  cbn [op_rating]. apply rating_values, Hrandom.
Qed.

(** X21. With the search box empty, the chip "all" and the filters as the
    page starts with them, the page shows every record of the scrape, in
    order ([parseFloat] reading each of the nine rating texts as a number
    that is not negative). *)
Theorem page_at_start_shows_every_record (k : nat) (rows : list Row) :
  (forall i, unit_interval (random i) = true) ->
  (forall s, In s ratings -> (0 <=? parseFloat_number s)%float = true) ->
  Home.filteredOperators parseFloat_number
    (fst (extractOperatorsFromTable random k rows)) "" "all" Home.filters_at_start
  = fst (extractOperatorsFromTable random k rows).
Proof.
  intros Hrandom Hparse. unfold Home.filteredOperators. apply filter_all.
  intros o Ho.
  unfold Home.matchesSearch, Home.matchesCategory, Home.matchesDistrict, Home.matchesPrice,
    Home.matchesRating.
  rewrite toLowerCase_empty, !includes_empty.
  cbn [Home.filters_at_start Home.district Home.priceRange Home.minRating].
  rewrite (Hparse (op_rating o)) by now apply (extracted_rating k rows).
  reflexivity.
Qed.

(** X22. On a record of the scrape each category chip selects one category:
    "diving" the category "Diving", "adventure" "Adventure", "mayan"
    "Mayan Tours" and "resort" "Resort"; a chip the page does not know
    selects nothing ([toLowerCase] being the ASCII one on the seven category
    texts). *)
Theorem chip_selects_its_category (k : nat) (rows : list Row) (o : OperatorData) :
  lowers category_values ->
  In o (fst (extractOperatorsFromTable random k rows)) ->
  (forall chip cat, In (chip, cat) chip_category ->
     Home.matchesCategory chip o = String.eqb (op_category o) cat) /\
  (forall chip, ~ In chip chips -> Home.matchesCategory chip o = false).
Proof.
  intros Hlow Ho. split.
  - intros chip cat Hchip.
    pose proof (extracted_category random k rows o Ho) as Hcat.
    unfold lowers in Hlow. rewrite Forall_forall in Hlow.
    specialize (Hlow _ Hcat). unfold Home.matchesCategory. rewrite Hlow.
    unfold chip_category in Hchip. unfold category_values in Hcat.
    repeat (destruct Hchip as [[= <- <-] | Hchip];
            [repeat (destruct Hcat as [<- | Hcat]; [reflexivity|]); destruct Hcat|]).
    destruct Hchip.
  - intros chip Hchip. unfold Home.matchesCategory.
    repeat match goal with
           | |- context [String.eqb chip ?c] =>
               destruct (String.eqb_spec chip c) as [->|_];
               [exfalso; apply Hchip; cbn; tauto|]
           end.
    reflexivity.
Qed.

End PageFacts.

Lemma page_at_start_shows_every_record_witness :
  Home.filteredOperators (fun _ => 4.5%float)
    (fst (extractOperatorsFromTable half 0 [sample_row])) "" "all"
    Home.filters_at_start
  = fst (extractOperatorsFromTable half 0 [sample_row]).
Proof.
  apply page_at_start_shows_every_record.
  - intros i. reflexivity.
  - intros s _. reflexivity.
Defined.

Lemma chip_selects_its_category_witness :
  Home.matchesCategory "diving" (sample_operator "seadiveco500")
  = String.eqb (op_category (sample_operator "seadiveco500")) "Diving".
Proof.
  destruct (chip_selects_its_category half 0 [sample_row] (sample_operator "seadiveco500"))
    as [Hchip _].
  - repeat constructor.
  - vm_compute. left. reflexivity.
  - apply Hchip. cbn. tauto.
Defined.

(* ===================================================================== *)
(** ** The search function and the search form *)
(* ===================================================================== *)


Section EdgeFacts.
Variable JSON : Type.
Variable empty_array : JSON.
Variable env : Edge.Env.
Variable amadeus : Edge.Amadeus JSON.



Variable isArray : JSON -> bool.


Lemma searchParams_get_app (l1 l2 : list (string * string)) (key : string) :
  Edge.searchParams_get (l1 ++ l2)%list key =
  match Edge.searchParams_get l1 key with
  | Some v => Some v
  | None => Edge.searchParams_get l2 key
  end.
Proof.
  induction l1 as [|[k v] rest IH]; [reflexivity|]. cbn [app Edge.searchParams_get].
  now destruct (String.eqb k key).
Qed.

(** The parameters the function reads of what the form sends. *)
Lemma params_of_read (searchQuery selectedCity selectedCategory : string) :
  let params := SearchForm.params_of searchQuery selectedCity selectedCategory in
  Edge.truthy_text (Edge.searchParams_get params "city")
  = (if String.eqb selectedCity "" then None else Some selectedCity) /\
  Edge.truthy_text (Edge.searchParams_get params "query")
  = (if String.eqb searchQuery "" then None else Some searchQuery).
Proof.
  cbv zeta. unfold SearchForm.params_of. rewrite !searchParams_get_app.
  destruct (String.eqb_spec searchQuery "") as [Hq|Hq];
    destruct (String.eqb_spec selectedCity "") as [Hc|Hc];
    destruct (String.eqb_spec selectedCategory "") as [Hk|Hk];
    cbn [Edge.searchParams_get String.eqb Ascii.eqb Bool.eqb Edge.truthy_text];
    repeat match goal with
           | |- context [String.eqb ?s ""] =>
               destruct (String.eqb_spec s "") as [?|_]; [contradiction|]
           end; split; reflexivity.
Qed.

(** X25. What a search finds depends on the city when one is chosen and on
    the text otherwise, and never on the category: two searches with the
    same keyword end in the same state and send the same requests. *)
Theorem search_depends_on_the_keyword_only (st : SearchForm.State JSON)
    (searchQuery selectedCity selectedCategory : string)
    (searchQuery' selectedCity' selectedCategory' : string) :
  (if String.eqb selectedCity "" then searchQuery else selectedCity)
  = (if String.eqb selectedCity' "" then searchQuery' else selectedCity') ->
  SearchForm.handleSearch empty_array isArray env amadeus st
    searchQuery selectedCity selectedCategory
  = SearchForm.handleSearch empty_array isArray env amadeus st
      searchQuery' selectedCity' selectedCategory'.
Proof.
  intros Hkeyword. unfold SearchForm.handleSearch. cbv zeta.
  assert (Hserve :
    Edge.serve empty_array env amadeus
      {| Edge.method := "GET";
         Edge.searchParams := SearchForm.params_of searchQuery selectedCity selectedCategory |}
    = Edge.serve empty_array env amadeus
      {| Edge.method := "GET";
         Edge.searchParams :=
           SearchForm.params_of searchQuery' selectedCity' selectedCategory' |});
    [|now rewrite Hserve].
  unfold Edge.serve. cbn [Edge.method Edge.searchParams String.eqb Ascii.eqb Bool.eqb].
  cbv zeta. cbn [Edge.city Edge.query].
  destruct (params_of_read searchQuery selectedCity selectedCategory) as [-> ->].
  destruct (params_of_read searchQuery' selectedCity' selectedCategory') as [-> ->].
  destruct (String.eqb_spec selectedCity "") as [Hc|Hc];
    destruct (String.eqb_spec selectedCity' "") as [Hc'|Hc'];
    destruct (String.eqb_spec searchQuery "") as [Hq|Hq];
    destruct (String.eqb_spec searchQuery' "") as [Hq'|Hq'];
    subst; try reflexivity; try congruence;
    try (destruct (Edge.getAmadeusToken env amadeus) as [[token|message] sent1];
         reflexivity).
Qed.

End EdgeFacts.


Lemma search_depends_on_the_keyword_only_witness :
  SearchForm.handleSearch [] (fun _ => true) sample_env sample_amadeus sample_state
    "reef" "Hopkins" "Fishing"
  = SearchForm.handleSearch [] (fun _ => true) sample_env sample_amadeus sample_state
      "" "Hopkins" "".
Proof. apply search_depends_on_the_keyword_only. reflexivity. Defined.

(* ===================================================================== *)
(** ** Pagination Walker: the two deployments *)
(* ===================================================================== *)

Section Deployments.
Context `{JSString}.
Variable random : nat -> float.
Variable remote : Remote.

(** Once a cookie is held the two deployments run the same loop. *)
Lemma loop_deployments_agree (n : nat) :
  forall w, pages_left w <= n -> cookies w <> None ->
  while_hasNextPage ServerJs random remote w = while_hasNextPage RouteTs random remote w.
Proof.
  induction n as [|n IH]; intros w Hn Hcookie;
    rewrite (while_hasNextPage_equation_1 ServerJs), (while_hasNextPage_equation_1 RouteTs);
    cbv zeta.
  all: destruct (nextLink _ _) as [href|]; [|reflexivity].
  all: destruct (doPostBack_match href) as [[eventTarget eventArgument]|]; [|reflexivity].
  all: destruct (cookies w) as [c|] eqn:Hc; [|contradiction].
  all: cbn [cookie_header].
  all: destruct (remote _) as [response'|message]; [|reflexivity].
  all: destruct (le_lt_dec (pageCount w + 1) 15) as [Hle|Hgt]; [|reflexivity].
  - unfold pages_left in Hn. lia.
  - apply IH.
    + unfold pages_left in *. cbn [pageCount]. lia.
    + cbn [cookies]. unfold update_cookies. destruct (set_cookie response'); discriminate.
Qed.

(** X26. When the first page sets a cookie, server.js and route.ts walk
    alike: they send the same requests, make the same draws and settle the
    same way (they differ only in the Cookie header sent while no cookie is
    held). *)
Theorem deployments_walk_alike (k : nat) (response0 : Response) :
  remote [Get] = Fulfilled response0 ->
  set_cookie response0 <> None ->
  scrapeAllPages ServerJs random remote k = scrapeAllPages RouteTs random remote k.
Proof.
  intros Hget Hset. unfold scrapeAllPages. rewrite Hget.
  apply (loop_deployments_agree 16).
  - unfold pages_left. cbn [pageCount]. lia.
  - cbn [cookies]. unfold update_cookies. destruct (set_cookie response0); [discriminate|].
    contradiction.
Qed.

End Deployments.

Lemma deployments_walk_alike_witness :
  scrapeAllPages ServerJs half endless_site 0 = scrapeAllPages RouteTs half endless_site 0.
Proof.
  apply (deployments_walk_alike half endless_site 0
           {| data := page_with_next 1;
              set_cookie := Some ["ASP.NET_SessionId=abc; path=/; HttpOnly"] |}).
  - reflexivity.
  - discriminate.
Defined.

(* ===================================================================== *)
(** ** Pagination Walker: the cookies a postback carries *)
(* ===================================================================== *)

Lemma latest_set_cookie_snoc (remote : Remote) (reqs : list Request) (x : Request) (n : nat) :
  n <= List.length reqs ->
  latest_set_cookie remote (reqs ++ [x])%list n = latest_set_cookie remote reqs n.
Proof.
  induction n as [|n IH]; intros Hn; [reflexivity|]. cbn [latest_set_cookie].
  rewrite IH by lia.
  replace (firstn (S n) (reqs ++ [x])%list) with (firstn (S n) reqs); [reflexivity|].
  rewrite firstn_app.
  replace (S n - List.length reqs) with 0 by lia. cbn [firstn]. now rewrite app_nil_r.
Qed.

Section CookieFacts.
Context `{JSString}.
Variable deployment : Deployment.
Variable random : nat -> float.
Variable remote : Remote.

Lemma cookies_sent_snoc (reqs : list Request) (body : FormData) :
  cookies_sent deployment remote reqs ->
  cookies_sent deployment remote
    (reqs ++ [Post body (cookie_header deployment
                           (option_map cookie_string
                              (latest_set_cookie remote reqs (List.length reqs))))])%list.
Proof.
  intros Hsent i b c Hi.
  destruct (Nat.lt_ge_cases i (List.length reqs)) as [Hlt|Hge].
  - rewrite nth_error_app1 in Hi by assumption.
    rewrite latest_set_cookie_snoc by lia. exact (Hsent i b c Hi).
  - assert (Hlen : i < List.length reqs + 1).
    { assert (Hsome : nth_error
                        (reqs ++ [Post body (cookie_header deployment
                                    (option_map cookie_string
                                       (latest_set_cookie remote reqs (List.length reqs))))])%list
                        i <> None) by (rewrite Hi; discriminate).
      apply nth_error_Some in Hsome. rewrite length_app in Hsome. exact Hsome. }
    assert (i = List.length reqs) as -> by lia.
    rewrite nth_error_app2, Nat.sub_diag in Hi by lia. cbn in Hi. injection Hi as _ <-.
    now rewrite latest_set_cookie_snoc.
Qed.

Lemma loop_cookies (n : nat) :
  forall w, pages_left w <= n ->
  cookies w = option_map cookie_string
                (latest_set_cookie remote (sent w) (List.length (sent w))) ->
  cookies_sent deployment remote (sent w) ->
  cookies_sent deployment remote (sent_after (while_hasNextPage deployment random remote w)).
Proof.
  induction n as [|n IH]; intros w Hn Hjar Hsent;
    rewrite while_hasNextPage_equation_1; cbv zeta.
  all: destruct (nextLink _ _) as [href|]; [|exact Hsent].
  all: destruct (doPostBack_match href) as [[eventTarget eventArgument]|]; [|exact Hsent].
  all: rewrite Hjar.
  all: pose proof (cookies_sent_snoc (sent w)
                     (formData_of (data (response w)) eventTarget eventArgument) Hsent)
         as Hsent'.
  all: set (request := Post _ _) in *.
  all: destruct (remote (sent w ++ [request])%list) as [response'|message] eqn:Hremote;
         [|exact Hsent'].
  all: destruct (le_lt_dec (pageCount w + 1) 15) as [Hle|Hgt]; [|exact Hsent'].
  - unfold pages_left in Hn. lia.
  - apply IH; cbn [sent cookies pageCount].
    + unfold pages_left in *. cbn [pageCount]. lia.
    + rewrite length_app. cbn [List.length].
      replace (List.length (sent w) + 1) with (S (List.length (sent w))) by lia.
      cbn [latest_set_cookie].
      replace (firstn (S (List.length (sent w))) (sent w ++ [request])%list)
        with (sent w ++ [request])%list
        by (symmetry; apply firstn_all2; rewrite length_app; cbn; lia).
      rewrite Hremote, latest_set_cookie_snoc by lia.
      unfold update_cookies. now destruct (set_cookie response').
    + exact Hsent'.
Qed.

(** X27. The cookies of the site are replaced, never merged: every
    postback of a walk carries the cookies of the latest response before it
    that set any, each cut at its first semicolon and joined by "; " (and
    what the deployment sends for no cookie when none did). *)
Theorem postback_carries_the_latest_cookies (k i : nat) (body : FormData)
    (cookie : option string) :
  let r := scrapeAllPages deployment random remote k in
  nth_error (sent_after r) i = Some (Post body cookie) ->
  cookie = cookie_header deployment
             (option_map cookie_string (latest_set_cookie remote (sent_after r) i)).
Proof.
  cbv zeta. revert i body cookie.
  change (cookies_sent deployment remote
            (sent_after (scrapeAllPages deployment random remote k))).
  unfold scrapeAllPages. destruct (remote [Get]) as [response0|message] eqn:Hget.
  - apply (loop_cookies 16); cbn [sent cookies pageCount List.length].
    + unfold pages_left. cbn [pageCount]. lia.
    + cbn [latest_set_cookie firstn]. rewrite Hget. unfold update_cookies.
      now destruct (set_cookie response0).
    + intros [|[|i]] b c Hi; cbn in Hi; discriminate Hi.
  - intros [|[|i]] b c Hi; cbn in Hi; discriminate Hi.
Qed.

End CookieFacts.

Lemma postback_carries_the_latest_cookies_witness :
  Some "ASP.NET_SessionId=abc"
  = cookie_header ServerJs
      (option_map cookie_string
         (latest_set_cookie endless_site
            (sent_after (scrapeAllPages ServerJs half endless_site 0)) 1)).
Proof.
  apply (postback_carries_the_latest_cookies ServerJs half endless_site 0 1
           (formData_of (page_with_next 1) "ctl00$Main$GridView1" "Page$2")).
  vm_compute. reflexivity.
Defined.
